(** * The ordered-collection node of the state tree
      (src/types/complex-types/array.ts)

    A shallow embedding of [ArrayType] and of its two reconciliation
    functions.  The collection lives in an observable array whose edits
    run an interception hook before they are committed and an observation
    hook afterwards; the hooks talk to the tree layer through the node
    handle ([assertWritable], [prepareChild], [setParent], [emitPatch]).
    Every call made to the tree layer is recorded, in order, in a trace,
    so that the statements below can speak about which calls an edit
    makes and in which order. *)

From Stdlib Require Import ZArith Lia Ascii String.
From stdpp Require Import base option list strings gmap pretty.

Set Default Proof Using "Type".
Local Open Scope Z_scope.

(** ** JavaScript values and arrays *)

(** The values held in slots, snapshots and patches are untyped in the
    source ([any]).  Its primitive operations are the ones the source
    applies to such values. *)
Class JSValues := {
  any : Type;
  undefined : any;
  (** [a === b] *)
  strict_eq : any -> any -> bool;
  (** the truth value of [a] in a condition, as in [!current[id]] *)
  truthy : any -> bool;
  (** [item[attr]] *)
  getProp : any -> string -> any;
  (** the property key a value denotes when it indexes an object, as in
      [current[id]] *)
  propertyKey : any -> string;
  (** [parseInt(s)] on the decimal index strings of patch paths *)
  parseInt : string -> Z;
  (** [({})[key]]: the property that an object created by [{}] inherits
      from [Object.prototype] under [key], if there is one (as under
      ["constructor"] and ["toString"]) *)
  inherited : string -> option any
}.

(** [{op, path, value?}] *)
Record IJsonPatch `{JSValues} := {
  op : string;
  path : string;
  value : option any
}.

(** ["" + n] for an integral number [n]. *)
Definition numberToString (n : Z) : string := pretty n.

Section JSArray.
Context {A : Type}.

(** The clamping [Array.prototype.slice] and [splice] apply to a
    relative index: negative counts from the end. *)
Definition relativeIndex (len k : Z) : Z :=
  if k <? 0 then Z.max (len + k) 0 else Z.min k len.

(** [l.slice(start, end)]; [None] is an omitted [end]. *)
Definition slice (l : list A) (start : Z) (end_ : option Z) : list A :=
  let len := Z.of_nat (length l) in
  let k := relativeIndex len start in
  let final := match end_ with
               | None => len
               | Some e => relativeIndex len e
               end in
  take (Z.to_nat (final - k)) (drop (Z.to_nat k) l).

(** [l.splice(start, deleteCount, ...items)]: the new contents and the
    removed elements. *)
Definition nativeSplice (l : list A) (start deleteCount : Z)
    (items : list A) : list A * list A :=
  let len := Z.of_nat (length l) in
  let k := relativeIndex len start in
  let d := Z.min (Z.max deleteCount 0) (len - k) in
  (take (Z.to_nat k) l ++ items ++ drop (Z.to_nat (k + d)) l,
   take (Z.to_nat d) (drop (Z.to_nat k) l)).

(** [l[i]], which is [undefined] outside the array. *)
Definition index_get (dflt : A) (l : list A) (i : Z) : A :=
  if (0 <=? i) && (i <? Z.of_nat (length l))
  then default dflt (l !! Z.to_nat i)
  else dflt.
End JSArray.

(** ** The tree layer, as the collection consumes it *)

(** The node handle and the helpers of [core] that array.ts imports.
    The tree layer keeps its own state ([world]: parents, paths,
    subscribers, node contents); the collection never inspects it. *)
Class TreeLayer `{JSValues} := {
  world : Type;
  (** [maybeMST(v, cb)] runs [cb] exactly when [v] is a node *)
  isMST : any -> bool;
  (** [valueToSnapshot(v)], read in the current state of the tree *)
  valueToSnapshot : world -> any -> any;
  (** [getType(existing).is(item)] *)
  typeIs : any -> any -> bool;
  (** whether [node.assertWritable()] passes *)
  writable : world -> bool;
  (** [node.prepareChild(subpath, child, reconcileExisting)]; it can read
      the container *)
  prepareChild_h : list any -> string -> any -> bool -> world -> any * world;
  (** [adm.setParent(null)] and [adm.setParent(node, subpath)] *)
  setParent_h : any -> option string -> world -> world;
  (** [node.emitPatch(patch, node)] *)
  emitPatch_h : IJsonPatch -> world -> world;
  (** [applySnapshot(existing, item)] of [core] *)
  applySnapshot_h : any -> any -> world -> world
}.

(** The element type the collection is parameterised over
    ([this.subType]). *)
Class ElementType `{TreeLayer} := {
  (** [factory.create(item)] *)
  subType_create : any -> world -> any * world;
  (** [getIdentifierAttribute(this.subType)] *)
  identifierAttribute : option string
}.

(** ** Effects: errors, the trace, and the store *)

Inductive error :=
| NotWritable
  (** [invariant(!current[id], "Identifier ... is not unique!")] *)
| NotUnique (id : string)
  (** the observable array refuses a write beyond its length *)
| IndexOutOfBounds (index : Z).

Inductive result (A : Type) :=
| Ok (a : A)
| Throw (e : error).
Arguments Ok {A} a.
Arguments Throw {A} e.

Section Effects.
Context {JS : JSValues} {TL : TreeLayer} {ET : ElementType}.

(** One entry per call into the tree layer, with the value the call
    returned where it returns one, and one entry per physical change of
    the array. *)
Inductive event :=
| AssertWritable
| PrepareChild (subpath : string) (child : any) (reconcileExisting : bool)
    (returned : any)
  (** [None] is [setParent(null)], [Some p] is [setParent(node, p)] *)
| SetParent (child : any) (subpath : option string)
| EmitPatch (patch : IJsonPatch)
| ApplySnapshot (existing item : any)
| Create (item : any) (returned : any)
| Commit.

(** The live container ([node.target]) with the hooks registered on it,
    and the state of the tree layer. *)
Record store := {
  target : list any;
  interceptor : bool;
  listener : bool;
  tree : world
}.

Definition set_tree (w : world) (s : store) : store :=
  {| target := target s; interceptor := interceptor s;
     listener := listener s; tree := w |}.

Definition set_target (l : list any) (s : store) : store :=
  {| target := l; interceptor := interceptor s;
     listener := listener s; tree := tree s |}.

(** A computation reads and updates the store, returns or throws, and
    appends to the trace. *)
Definition M (A : Type) : Type := store -> result A * store * list event.

Definition ret {A} (a : A) : M A := fun s => (Ok a, s, []).

Definition bind {A B} (m : M A) (f : A -> M B) : M B := fun s =>
  match m s with
  | (Ok a, s1, t1) =>
      match f a s1 with
      | (r, s2, t2) => (r, s2, t1 ++ t2)
      end
  | (Throw e, s1, t1) => (Throw e, s1, t1)
  end.

Definition throw {A} (e : error) : M A := fun s => (Throw e, s, []).

Definition get_target : M (list any) := fun s => (Ok (target s), s, []).

Definition get_tree : M world := fun s => (Ok (tree s), s, []).

End Effects.

Declare Scope M_scope.
Delimit Scope M_scope with M.
Notation "x <- m ;; k" := (bind m (fun x => k))
  (at level 20, m at level 99, k at level 200, only parsing) : M_scope.
Notation "m ;; k" := (bind m (fun _ => k))
  (at level 100, k at level 200, right associativity, only parsing)
  : M_scope.
Local Open Scope M_scope.

Section Collection.
Context {JS : JSValues} {TL : TreeLayer} {ET : ElementType}.

(** *** Calls into the tree layer *)

Definition assertWritable : M unit := fun s =>
  (if writable (tree s) then Ok tt else Throw NotWritable, s,
   [AssertWritable]).

Definition prepareChild (subpath : string) (child : any)
    (reconcileExisting : bool) : M any := fun s =>
  let '(v, w) :=
    prepareChild_h (target s) subpath child reconcileExisting (tree s) in
  (Ok v, set_tree w s, [PrepareChild subpath child reconcileExisting v]).

Definition setParent (child : any) (subpath : option string) : M unit :=
  fun s =>
  (Ok tt, set_tree (setParent_h child subpath (tree s)) s,
   [SetParent child subpath]).

Definition emitPatch (patch : IJsonPatch) : M unit := fun s =>
  (Ok tt, set_tree (emitPatch_h patch (tree s)) s, [EmitPatch patch]).

Definition core_applySnapshot (existing item : any) : M unit := fun s =>
  (Ok tt, set_tree (applySnapshot_h existing item (tree s)) s,
   [ApplySnapshot existing item]).

Definition create (item : any) : M any := fun s =>
  let '(v, w) := subType_create item (tree s) in
  (Ok v, set_tree w s, [Create item v]).

(** [maybeMST(v, adm => k adm)]: the handle of a node is addressed by the
    node itself. *)
Definition maybeMST (v : any) (k : any -> M unit) : M unit :=
  if isMST v then k v else ret tt.

(** [invariant(cond, message)] *)
Definition invariant (cond : bool) (e : error) : M unit :=
  if cond then ret tt else throw e.

(** *** Iteration *)

(** [l.forEach((x, idx) => body x idx)], counting from [k]. *)
Fixpoint forEach_from {A} (k : Z) (l : list A) (body : A -> Z -> M unit)
    : M unit :=
  match l with
  | [] => ret tt
  | x :: l' => body x k ;; forEach_from (k + 1) l' body
  end.

Definition forEach {A} (l : list A) (body : A -> Z -> M unit) : M unit :=
  forEach_from 0 l body.

(** [l.map((x, pos) => f x pos)], counting from [k]. *)
Fixpoint map_from {A B} (k : Z) (l : list A) (f : A -> Z -> M B)
    : M (list B) :=
  match l with
  | [] => ret []
  | x :: l' => y <- f x k ;; ys <- map_from (k + 1) l' f ;; ret (y :: ys)
  end.

Definition mapM {A B} (l : list A) (f : A -> Z -> M B) : M (list B) :=
  map_from 0 l f.

(** [n] rounds of a counting loop that is at [i] and moves by [step]. *)
Fixpoint rounds (n : nat) (i step : Z) (body : Z -> M unit) : M unit :=
  match n with
  | O => ret tt
  | S n' => body i ;; rounds n' (i + step) step body
  end.

(** [for (let i = from; i >= downto; i--) body(i)] *)
Definition for_down (from downto : Z) (body : Z -> M unit) : M unit :=
  rounds (Z.to_nat (from - downto + 1)) from (-1) body.

(** [for (let i = from; i < bound; i++) body(i)] *)
Definition for_up (from bound : Z) (body : Z -> M unit) : M unit :=
  rounds (Z.to_nat (bound - from)) from 1 body.

(** ** The hooks of [ArrayType] *)

(** The edit handed to the interception hook
    ([IArrayWillChange | IArrayWillSplice]).  Its [object] is the live
    container, which is read from the store. *)
Inductive IArrayWillChange :=
| WillUpdate (index : Z) (newValue : any)
| WillSplice (index : Z) (added : list any) (removedCount : Z).

(** The committed edit handed to the observation hook
    ([IArrayChange | IArraySplice]). *)
Inductive IArrayChange :=
| Update (index : Z) (newValue oldValue : any)
| Splice (index : Z) (added : list any) (addedCount : Z)
    (removed : list any) (removedCount : Z).

(** Modelled from the spec: the default of the third parameter of
    [prepareChild], which is declared in core and not under src/; the node
    handle contract reads [prepareChild(path, rawValue,
    reconcileExisting=true)]. *)
Definition reconcileExisting_default : bool := true.

Definition reconcileUnkeyedArrayItems (index : Z) (added : list any)
    (removedCount : Z) : M (list any) :=
  let reconcilableCount := Z.min removedCount (Z.of_nat (length added)) in
  target <- get_target ;;
  (if removedCount >? reconcilableCount then
     forEach
       (slice target (index + reconcilableCount) (Some (index + removedCount)))
       (fun oldValue _ => maybeMST oldValue (fun adm => setParent adm None))
   else ret tt) ;;
  let delta := Z.of_nat (length added) - removedCount in
  target <- get_target ;;
  forEach (slice target (index + removedCount) None)
    (fun oldValue idx =>
       maybeMST oldValue (fun adm =>
         setParent adm
           (Some (numberToString (index + removedCount + idx + delta))))) ;;
  reconciled <-
    mapM (slice added 0 (Some reconcilableCount))
      (fun newValue pos =>
         prepareChild (numberToString (index + pos)) newValue
           reconcileExisting_default) ;;
  created <-
    mapM (slice added reconcilableCount None)
      (fun newValue pos =>
         prepareChild (numberToString (index + pos + reconcilableCount))
           newValue false) ;;
  ret (reconciled ++ created).

(** The hook returns the (rewritten) change, or [None] for [null]. *)
Definition willChange (change : IArrayWillChange)
    : M (option IArrayWillChange) :=
  assertWritable ;;
  match change with
  | WillUpdate index newValue =>
      object <- get_target ;;
      let oldValue := index_get undefined object index in
      if strict_eq newValue oldValue then ret None
      else
        prepared <-
          prepareChild (numberToString index) newValue
            reconcileExisting_default ;;
        ret (Some (WillUpdate index prepared))
  | WillSplice index added removedCount =>
      reconciled <- reconcileUnkeyedArrayItems index added removedCount ;;
      ret (Some (WillSplice index reconciled removedCount))
  end.

Definition removePatch (i : Z) : IJsonPatch :=
  {| op := "remove"; path := numberToString i; value := None |}.

Definition addPatch (i : Z) (v : any) : IJsonPatch :=
  {| op := "add"; path := numberToString i; value := Some v |}.

Definition replacePatch (i : Z) (v : any) : IJsonPatch :=
  {| op := "replace"; path := numberToString i; value := Some v |}.

Definition didChange (change : IArrayChange) : M unit :=
  match change with
  | Update index newValue _ =>
      w <- get_tree ;;
      emitPatch (replacePatch index (valueToSnapshot w newValue))
  | Splice index added addedCount _ removedCount =>
      for_down (index + removedCount - 1) index
        (fun i => emitPatch (removePatch i)) ;;
      for_up 0 addedCount
        (fun i =>
           w <- get_tree ;;
           emitPatch
             (addPatch (index + i)
                (valueToSnapshot w (index_get undefined added i))))
  end.

(** ** The observable container *)

(** Modelled from the spec: the observable array comes from the mobx
    library, outside src/.  Sections 2, 4.1 and 4.2 give its edit pipeline:
    an edit is handed to the registered interception hook, which may
    rewrite it or veto it by returning null; the edit is then committed;
    the committed edit is handed to the registered observation hook.  The
    clamping of the index and of the removal count, and the write at the
    length of the array being an insertion, are the library's. *)
Definition hasInterceptors : M bool := fun s => (Ok (interceptor s), s, []).

Definition hasListeners : M bool := fun s => (Ok (listener s), s, []).

(** Modelled from the spec: [intercept(instance, this.willChange)] of the
    observable array registers the interception hook. *)
Definition intercept : M unit := fun s =>
  (Ok tt,
   {| target := target s; interceptor := true; listener := listener s;
      tree := tree s |}, []).

(** Modelled from the spec: [observe(instance, this.didChange)] of the
    observable array registers the observation hook. *)
Definition observe : M unit := fun s =>
  (Ok tt,
   {| target := target s; interceptor := interceptor s; listener := true;
      tree := tree s |}, []).

(** Modelled from the spec: the commit of an edit, the physical write of
    the array. *)
Definition commit (values : list any) : M unit := fun s =>
  (Ok tt, set_target values s, [Commit]).

(** Modelled from the spec: the edit is handed to the interception hook
    when one is registered. *)
Definition interceptChange (change : IArrayWillChange)
    : M (option IArrayWillChange) :=
  hooked <- hasInterceptors ;;
  if hooked then willChange change else ret (Some change).

(** Modelled from the spec: the committed edit is handed to the
    observation hook when one is registered. *)
Definition notifyListeners (change : IArrayChange) : M unit :=
  observed <- hasListeners ;;
  if observed then didChange change else ret tt.

(** Modelled from the spec: [target.splice(index, deleteCount,
    ...newItems)] of the observable array.  The index and the count are
    clamped to the array, the splice is intercepted, committed, and
    observed unless it removes and adds nothing; the removed elements are
    returned. *)
Definition observable_splice (index deleteCount : Z) (newItems : list any)
    : M (list any) :=
  values <- get_target ;;
  let len := Z.of_nat (length values) in
  let index :=
    if index >? len then len
    else if index <? 0 then Z.max 0 (len + index)
    else index in
  let deleteCount := Z.max 0 (Z.min deleteCount (len - index)) in
  change <- interceptChange (WillSplice index newItems deleteCount) ;;
  match change with
  | Some (WillSplice _ added removedCount) =>
      let '(values', removed) :=
        nativeSplice values index removedCount added in
      commit values' ;;
      (if negb (removedCount =? 0) || negb (Z.of_nat (length added) =? 0)
       then
         notifyListeners
           (Splice index added (Z.of_nat (length added)) removed
              (Z.of_nat (length removed)))
       else ret tt) ;;
      ret removed
  | _ => ret []
  end.

(** Modelled from the spec: [target.replace(newItems)] of the observable
    array, a splice of the whole content. *)
Definition observable_replace (newItems : list any) : M (list any) :=
  values <- get_target ;;
  observable_splice 0 (Z.of_nat (length values)) newItems.

(** Modelled from the spec: [target[index] = newValue] of the observable
    array.  Within the array it is an update, which is intercepted,
    committed when the value it ends up with is not the one the slot
    holds, and observed; at the length of the array it is an insertion;
    beyond it the array throws; a negative index is no slot of the
    array. *)
Definition observable_set (index : Z) (newValue : any) : M unit :=
  values <- get_target ;;
  let len := Z.of_nat (length values) in
  if (0 <=? index) && (index <? len) then
    let oldValue := index_get undefined values index in
    change <- interceptChange (WillUpdate index newValue) ;;
    match change with
    | Some (WillUpdate _ newValue) =>
        if negb (strict_eq newValue oldValue) then
          commit (<[Z.to_nat index := newValue]> values) ;;
          notifyListeners (Update index newValue oldValue)
        else ret tt
    | _ => ret tt
    end
  else if index =? len then
    observable_splice index 0 [newValue] ;; ret tt
  else if index <? 0 then ret tt
  else throw (IndexOutOfBounds index).

(** ** Whole-snapshot replacement *)

(** [current[key]] on the object [current], which [const current: any =
    {}] creates and the source uses as a map: the property filed under
    [key], or else the one that the object inherits from
    [Object.prototype]. *)
Definition lookupCurrent (current : gmap string any) (key : string)
    : option any :=
  match current !! key with
  | Some item => Some item
  | None => inherited key
  end.

(** [!current[id]] *)
Definition unused (current : gmap string any) (key : string) : bool :=
  match lookupCurrent current key with
  | Some item => negb (truthy item)
  | None => true
  end.

(** The [target.forEach] of [reconcileArrayItems], which fills
    [current].  The assignment [current[id] = item] files an own
    property; under the key ["__proto__"] it would replace the prototype
    instead, but there the invariant has failed before: the inherited
    value is the prototype itself, which is truthy. *)
Fixpoint indexCurrent (identifierAttr : string) (items : list any)
    (current : gmap string any) : M (gmap string any) :=
  match items with
  | [] => ret current
  | item :: rest =>
      let id := getProp item identifierAttr in
      invariant (unused current (propertyKey id))
        (NotUnique (propertyKey id)) ;;
      indexCurrent identifierAttr rest (<[propertyKey id := item]> current)
  end.

(** The callback of the [snapshot.map] of [reconcileArrayItems].
    [existing] is whatever [current] answers under the identifier of
    [item], an inherited property included, and [typeIs existing item] is
    [getType(existing).is(item)] on it. *)
Definition reconcileItem (identifierAttr : string)
    (current : gmap string any) (item : any) : M any :=
  match lookupCurrent current (propertyKey (getProp item identifierAttr)) with
  | Some existing =>
      if truthy existing && typeIs existing item then
        core_applySnapshot existing item ;; ret existing
      else create item
  | None => create item
  end.

Definition reconcileArrayItems (identifierAttr : string) (target : list any)
    (snapshot : list any) : M (list any) :=
  current <- indexCurrent identifierAttr target ∅ ;;
  mapM snapshot (fun item _ => reconcileItem identifierAttr current item).

(** [if (identifierAttr)]: null and the empty string are falsy. *)
Definition identifierAttr_truthy (attr : option string) : option string :=
  match attr with
  | Some a => if String.eqb a "" then None else Some a
  | None => None
  end.

Definition applySnapshot (snapshot : list any) : M unit :=
  target <- get_target ;;
  match identifierAttr_truthy identifierAttribute with
  | Some identifierAttr =>
      items <- reconcileArrayItems identifierAttr target snapshot ;;
      observable_replace items ;; ret tt
  | None => observable_replace snapshot ;; ret tt
  end.

(** ** Patch application and construction *)

Definition applyPatchLocally (subpath : string) (patch : IJsonPatch)
    : M unit :=
  target <- get_target ;;
  let index :=
    if String.eqb subpath "-" then Z.of_nat (length target)
    else parseInt subpath in
  if String.eqb (op patch) "replace" then
    observable_set index (default undefined (value patch))
  else if String.eqb (op patch) "add" then
    observable_splice index 0 [default undefined (value patch)] ;; ret tt
  else if String.eqb (op patch) "remove" then
    observable_splice index 1 [] ;; ret tt
  else ret tt.

(** [observable.shallowArray()]: empty, no hook registered yet. *)
Definition createNewInstance (w : world) : store :=
  {| target := []; interceptor := false; listener := false; tree := w |}.

(** Modelled from the spec: [getMSTAdministration(instance).applySnapshot]
    is a method of the node handle, declared in core and not under src/;
    section 4.1 has hydration apply the identity-based reconciliation of
    section 4.3.2 to the container, which is [ArrayType.applySnapshot]. *)
Definition node_applySnapshot (snapshot : list any) : M unit :=
  applySnapshot snapshot.

Definition finalizeNewInstance (snapshot : list any) : M unit :=
  intercept ;;
  observe ;;
  node_applySnapshot snapshot.

End Collection.

(** ** Reading a trace *)

Section Traces.
Context {JS : JSValues} {TL : TreeLayer} {ET : ElementType}.

(** The patches handed to [emitPatch], in order. *)
Definition emitted (t : list event) : list IJsonPatch :=
  omap (fun e => match e with EmitPatch p => Some p | _ => None end) t.

(** The calls of [prepareChild], in order: path, raw value,
    [reconcileExisting], and the value returned. *)
Definition prepared (t : list event) : list (string * any * bool * any) :=
  omap (fun e => match e with
                 | PrepareChild p c b o => Some (p, c, b, o)
                 | _ => None
                 end) t.

(** The children whose parent was cleared by [setParent(null)]. *)
Definition detached (t : list event) : list any :=
  omap (fun e => match e with SetParent c None => Some c | _ => None end) t.

(** The children registered again by [setParent(node, path)], with the
    path. *)
Definition reparented (t : list event) : list (any * string) :=
  omap (fun e => match e with
                 | SetParent c (Some p) => Some (c, p)
                 | _ => None
                 end) t.

(** The work of identity-based reconciliation: snapshots applied onto
    existing children, and children created by the element type. *)
Definition identityWork (t : list event) : list event :=
  List.filter (fun e => match e with
                        | ApplySnapshot _ _ | Create _ _ => true
                        | _ => false
                        end) t.

(** The number of physical writes of the array. *)
Definition commits (t : list event) : nat :=
  length (List.filter (fun e => match e with Commit => true | _ => false end)
            t).

(** What a patch says: its operation, its path and its value. *)
Definition patchTriple (p : IJsonPatch) : string * string * option any :=
  (op p, path p, value p).

(** The tree after a run of [emitPatch] calls. *)
Definition emitAll (ps : list IJsonPatch) (w : world) : world :=
  foldl (fun w p => emitPatch_h p w) w ps.

(** The indices [i+r-1, ..., i] and [i, ..., i+a-1]. *)
Definition descending (i r : Z) : list Z :=
  (fun k => i + r - 1 - Z.of_nat k) <$> seq 0 (Z.to_nat r).

Definition ascending (i : Z) (a : nat) : list Z :=
  (fun k => i + Z.of_nat k) <$> seq 0 a.

(** One [add] patch per element, at consecutive paths from [i], each
    carrying the snapshot its element has when the patch is emitted. *)
Fixpoint addPatches (w : world) (i : Z) (added : list any)
    : list IJsonPatch :=
  match added with
  | [] => []
  | v :: rest =>
      let p := addPatch i (valueToSnapshot w v) in
      p :: addPatches (emitPatch_h p w) (i + 1) rest
  end.

(** The elements of [l] at the positions [lo, ..., hi-1]. *)
Definition positions {A} (l : list A) (lo hi : Z) : list A :=
  take (Z.to_nat (hi - lo)) (drop (Z.to_nat lo) l).

(** The elements of [l] paired with their indices, counted from [k]. *)
Fixpoint indexed {A} (k : Z) (l : list A) : list (Z * A) :=
  match l with
  | [] => []
  | x :: l' => (k, x) :: indexed (k + 1) l'
  end.

(** The nodes among indexed elements. *)
Definition nodes (l : list (Z * any)) : list (Z * any) :=
  List.filter (fun jv => isMST jv.2) l.

(** The [setParent] calls made for the nodes among [l], the element at
    index [j] being given the parent [p j]. *)
Definition parentEvents (p : Z -> option string) (l : list (Z * any))
    : list event :=
  (fun jv => SetParent jv.2 (p jv.1)) <$> nodes l.

(** The [prepareChild] calls made for the indexed raw values [l], with
    the values [out] they returned. *)
Definition prepareEvents (pth : Z -> string) (b : bool)
    (l : list (Z * any)) (out : list any) : list event :=
  zip_with (fun jv o => PrepareChild (pth jv.1) jv.2 b o) l out.

(** The trace of unkeyed reconciliation on the container [target]: the
    dropped nodes are detached, the nodes behind the edited region are
    registered at their index plus the shift, and every added value is
    prepared, the first [min removedCount (length added)] of them against
    the occupant of their slot.  [reconciled] and [created] are the values
    [prepareChild] returned. *)
Definition reconcileEvents (target : list any) (index : Z)
    (added : list any) (removedCount : Z) (reconciled created : list any)
    : list event :=
  let a := Z.of_nat (length added) in
  let rc := Z.min removedCount a in
  parentEvents (fun _ => None)
    (indexed (index + rc)
       (positions target (index + rc) (index + removedCount)))
  ++ parentEvents (fun j => Some (numberToString (j + (a - removedCount))))
       (indexed (index + removedCount)
          (drop (Z.to_nat (index + removedCount)) target))
  ++ prepareEvents numberToString true
       (indexed index (take (Z.to_nat rc) added)) reconciled
  ++ prepareEvents numberToString false
       (indexed (index + rc) (drop (Z.to_nat rc) added)) created.

(** The key under which identity-based reconciliation files an element:
    its identifier attribute, as a property key. *)
Definition identifierKey (attr : string) (v : any) : string :=
  propertyKey (getProp v attr).

(** Whether the empty object [{}] answers with a truthy value under
    [key]: the keys that [Object.prototype] occupies. *)
Definition inheritedKey (key : string) : bool :=
  match inherited key with
  | Some v => truthy v
  | None => false
  end.

(** The existing child that has the identifier value of [item]. *)
Definition existingChild (attr : string) (target : list any) (item : any)
    : option any :=
  List.find
    (fun c => String.eqb (identifierKey attr c) (identifierKey attr item))
    target.

(** The existing child that is kept for [item]: it has the identifier
    value of [item] and its runtime type accepts [item]. *)
Definition keptChild (attr : string) (target : list any) (item : any)
    : option any :=
  match existingChild attr target item with
  | Some c => if typeIs c item then Some c else None
  | None => None
  end.

(** What identity-based reconciliation does for [item], [out] being the
    element it yields. *)
Definition itemEvent (attr : string) (target : list any) (item out : any)
    : event :=
  match keptChild attr target item with
  | Some c => ApplySnapshot c item
  | None => Create item out
  end.

(** The object [current] after the elements [items] were filed in it. *)
Definition filed (attr : string) (items : list any)
    (current : gmap string any) : gmap string any :=
  foldl (fun m c => <[identifierKey attr c := c]> m) current items.

(** The index and the removal count an edit of the observable array is
    clamped to. *)
Definition clampIndex (len index : Z) : Z :=
  if index >? len then len
  else if index <? 0 then Z.max 0 (len + index)
  else index.

Definition clampCount (len index deleteCount : Z) : Z :=
  Z.max 0 (Z.min deleteCount (len - index)).

End Traces.

(** ** A small tree layer to run the collection on

    Values are strings, numbers, plain [{id, v}] objects and nodes; a
    node is a reference ([addr]) carrying its immutable identifier, and
    its content lives in the tree.  An identifier is a number ([DRaw],
    [DNode]) or a string ([DRawS], [DNodeS]).  [DBuiltin] is a property
    of [Object.prototype]. *)
Module Demo.

Inductive dval :=
| DUndefined
| DNum (n : Z)
| DStr (s : string)
| DRaw (id : Z) (v : string)
| DNode (addr : nat) (id : Z)
| DRawS (id : string) (v : string)
| DNodeS (addr : nat) (id : string)
| DBuiltin (name : string).

#[global] Instance dval_eq_dec : EqDecision dval.
Proof. solve_decision. Defined.

Definition digit (c : ascii) : option Z :=
  let n := Z.of_nat (nat_of_ascii c) in
  if (48 <=? n) && (n <=? 57) then Some (n - 48) else None.

Fixpoint digits (s : string) (acc : Z) : Z :=
  match s with
  | EmptyString => acc
  | String c s' =>
      match digit c with
      | Some d => digits s' (10 * acc + d)
      | None => acc
      end
  end.

(** The property names of [Object.prototype]. *)
Definition objectPrototypeKeys : list string :=
  ["constructor"; "toString"; "toLocaleString"; "valueOf";
   "hasOwnProperty"; "isPrototypeOf"; "propertyIsEnumerable"; "__proto__";
   "__defineGetter__"; "__defineSetter__"; "__lookupGetter__";
   "__lookupSetter__"]%string.

#[global] Instance demo_values : JSValues := {|
  any := dval;
  undefined := DUndefined;
  strict_eq a b := bool_decide (a = b);
  truthy a :=
    match a with
    | DUndefined => false
    | DNum n => negb (n =? 0)
    | DStr s => negb (String.eqb s "")
    | _ => true
    end;
  getProp a attr :=
    match a with
    | DRaw id v =>
        if String.eqb attr "id" then DNum id
        else if String.eqb attr "v" then DStr v
        else DUndefined
    | DNode _ id => if String.eqb attr "id" then DNum id else DUndefined
    | DRawS id v =>
        if String.eqb attr "id" then DStr id
        else if String.eqb attr "v" then DStr v
        else DUndefined
    | DNodeS _ id => if String.eqb attr "id" then DStr id else DUndefined
    | _ => DUndefined
    end;
  propertyKey a :=
    match a with
    | DUndefined => "undefined"
    | DNum n => numberToString n
    | DStr s => s
    | _ => "[object Object]"
    end;
  parseInt s := digits s 0;
  inherited key :=
    if existsb (String.eqb key) objectPrototypeKeys
    then Some (DBuiltin key) else None
|}.

Record dworld := {
  fresh : nat;
  content : gmap nat string;
  parent : gmap nat string;
  locked : bool
}.

Definition put (a : nat) (v : string) (w : dworld) : dworld :=
  {| fresh := fresh w; content := <[a := v]> (content w);
     parent := parent w; locked := locked w |}.

Definition alloc (id : Z) (v : string) (w : dworld) : dval * dworld :=
  (DNode (fresh w) id,
   {| fresh := S (fresh w); content := <[fresh w := v]> (content w);
      parent := parent w; locked := locked w |}).

Definition allocS (id v : string) (w : dworld) : dval * dworld :=
  (DNodeS (fresh w) id,
   {| fresh := S (fresh w); content := <[fresh w := v]> (content w);
      parent := parent w; locked := locked w |}).

#[global] Instance demo_tree : TreeLayer := {|
  world := dworld;
  isMST a :=
    match a with DNode _ _ | DNodeS _ _ => true | _ => false end;
  valueToSnapshot w a :=
    match a with
    | DNode addr id => DRaw id (default "" (content w !! addr))
    | DNodeS addr id => DRawS id (default "" (content w !! addr))
    | _ => a
    end;
  typeIs existing item :=
    match existing, item with
    | DNode _ _, DRaw _ _ => true
    | DNodeS _ _, DRawS _ _ => true
    | _, _ => false
    end;
  writable w := negb (locked w);
  prepareChild_h target subpath child reconcileExisting w :=
    match child with
    | DRaw id v =>
        match index_get DUndefined target (digits subpath 0) with
        | DNode addr id' =>
            if reconcileExisting then (DNode addr id', put addr v w)
            else alloc id v w
        | _ => alloc id v w
        end
    | DRawS id v =>
        match index_get DUndefined target (digits subpath 0) with
        | DNodeS addr id' =>
            if reconcileExisting then (DNodeS addr id', put addr v w)
            else allocS id v w
        | _ => allocS id v w
        end
    | _ => (child, w)
    end;
  setParent_h child subpath w :=
    match child with
    | DNode addr _ | DNodeS addr _ =>
        {| fresh := fresh w; content := content w;
           parent := match subpath with
                     | Some p => <[addr := p]> (parent w)
                     | None => delete addr (parent w)
                     end;
           locked := locked w |}
    | _ => w
    end;
  emitPatch_h _ w := w;
  applySnapshot_h existing item w :=
    match existing, item with
    | DNode addr _, DRaw _ v => put addr v w
    | DNodeS addr _, DRawS _ v => put addr v w
    | _, _ => w
    end
|}.

#[global] Instance demo_element : ElementType := {|
  subType_create item w :=
    match item with
    | DRaw id v => alloc id v w
    | DRawS id v => allocS id v w
    | _ => (item, w)
    end;
  identifierAttribute := Some "id"
|}.

Definition empty_world : dworld :=
  {| fresh := 0; content := ∅; parent := ∅; locked := false |}.

(** The tree of the container [{id: 1, v: "a"}, {id: 2, v: "b"}], whose
    nodes are [DNode 0 1] and [DNode 1 2]. *)
Definition two_nodes : dworld :=
  {| fresh := 2; content := {[ 0%nat := "a"; 1%nat := "b" ]}; parent := ∅;
     locked := false |}.

(** The tree of the container [{id: "constructor", v: "a"}], whose node
    is [DNodeS 0 "constructor"], or of one whose only node has another
    string identifier. *)
Definition one_named : dworld :=
  {| fresh := 1; content := {[ 0%nat := "a" ]}; parent := ∅;
     locked := false |}.

(** Two patches: appending ["x"], and an operation that array.ts does not
    know. *)
Definition append_x : IJsonPatch :=
  {| op := "add"; path := "-"; value := Some (DStr "x") |}.

Definition move_0 : IJsonPatch :=
  {| op := "move"; path := "0"; value := None |}.

(** A wired container holding [l]. *)
Definition wired (l : list dval) (w : dworld) : store :=
  {| target := l; interceptor := true; listener := true; tree := w |}.

End Demo.

(** ** The remaining methods of [ArrayType] *)

(** [parseInt(s, 10)] on the decimal index strings of child keys. *)
Class Radix10 := { parseInt10 : string -> Z }.

(** [this.subType.is(item)] *)
Class TypeCheck `{JSValues} := { subType_is : any -> bool }.

Section Methods.
Context {JS : JSValues} {TL : TreeLayer} {ET : ElementType}.
Context {R10 : Radix10} {TC : TypeCheck}.

(** The [target.forEach] of [getChildMSTs], which pushes one pair per
    node, counting from [k]. *)
Fixpoint getChildMSTs_from (k : Z) (l : list any) : list (string * any) :=
  match l with
  | [] => []
  | value :: l' =>
      (if isMST value then [(numberToString k, value)] else [])
      ++ getChildMSTs_from (k + 1) l'
  end.

Definition getChildMSTs (s : store) : list (string * any) :=
  getChildMSTs_from 0 (target s).

(** [None] is [null]. *)
Definition getChildMST (key : string) (s : store) : option any :=
  let index := parseInt10 key in
  if index <? Z.of_nat (length (target s)) then
    let value := index_get undefined (target s) index in
    if isMST value then Some value else None
  else None.

Definition serialize (s : store) : list any :=
  valueToSnapshot (tree s) <$> target s.

(** [None] is a value that is not an array. *)
Definition isValidSnapshot (snapshot : option (list any)) : bool :=
  match snapshot with
  | Some items => forallb subType_is items
  | None => false
  end.

Definition getDefaultSnapshot : list any := [].

Definition removeChild (subpath : string) : M unit :=
  observable_splice (parseInt10 subpath) 1 [] ;; ret tt.

(** Patches applied one after the other, each at the slot its path
    names. *)
Fixpoint applyPatches (patches : list IJsonPatch) : M unit :=
  match patches with
  | [] => ret tt
  | patch :: rest => applyPatchLocally (path patch) patch ;; applyPatches rest
  end.

(** The value a patch carries, [undefined] when it carries none. *)
Definition patchValue (patch : IJsonPatch) : any :=
  default undefined (value patch).

(** The raw values handed to [prepareChild], and the values it returned. *)
Definition preparedRaw (t : list event) : list any :=
  (fun x => x.1.1.2) <$> prepared t.

Definition preparedOut (t : list event) : list any :=
  (fun x => x.2) <$> prepared t.

(** The children on which identity-based reconciliation applied a
    snapshot. *)
Definition keptChildren (t : list event) : list any :=
  omap (fun e => match e with ApplySnapshot c _ => Some c | _ => None end) t.

End Methods.

(** The small tree layer, completed: child keys are parsed like patch
    paths, the element type accepts the plain objects, and a second
    element type has no identifier attribute. *)
Module DemoMore.
Import Demo.

#[export] Instance demo_radix : Radix10 := {| parseInt10 s := digits s 0 |}.

#[export] Instance demo_check : TypeCheck := {|
  subType_is a := match a with DRaw _ _ => true | _ => false end
|}.

Definition demo_plain : ElementType := {|
  subType_create item w :=
    match item with
    | DRaw id v => alloc id v w
    | _ => (item, w)
    end;
  identifierAttribute := None
|}.

(** A container with no hook registered. *)
Definition unwired (l : list dval) (w : dworld) : store :=
  {| target := l; interceptor := false; listener := false; tree := w |}.

(** Patches that remove the first element, remove at the end, and
    replace by ["x"] at index 1. *)
Definition remove_0 : IJsonPatch :=
  {| op := "remove"; path := "0"; value := None |}.

Definition remove_end : IJsonPatch :=
  {| op := "remove"; path := "-"; value := None |}.

Definition replace_1_x : IJsonPatch :=
  {| op := "replace"; path := "1"; value := Some (DStr "x") |}.

End DemoMore.

(** * Properties *)

Section Properties.
Context {JS : JSValues} {TL : TreeLayer} {ET : ElementType}.

(** *** The embedding of JavaScript arrays and loops *)

Example slice_from_end : slice [1; 2; 3; 4] (-2) None = [3; 4].
Proof. reflexivity. Qed.

Example slice_to_end : slice [1; 2; 3; 4] 1 (Some (-1)) = [2; 3].
Proof. reflexivity. Qed.

Example slice_beyond : slice [1; 2; 3; 4] 3 (Some 9) = [4].
Proof. reflexivity. Qed.

Example nativeSplice_middle :
  nativeSplice [1; 2; 3; 4] 1 2 [7; 8; 9] = ([1; 7; 8; 9; 4], [2; 3]).
Proof. reflexivity. Qed.

Example numberToString_12 : numberToString 12 = "12"%string.
Proof. reflexivity. Qed.

(** The counting loops run as the loops of the source do: the guard is
    tested, the body runs, the counter moves. *)
Lemma for_down_unfold from downto body (s : store) :
  for_down from downto body s
  = if downto <=? from
    then (body from ;; for_down (from - 1) downto body) s
    else ret tt s.
Proof.
  unfold for_down. destruct (Z.leb_spec downto from).
  - replace (Z.to_nat (from - downto + 1))
      with (S (Z.to_nat (from - 1 - downto + 1))) by lia.
    reflexivity.
  - by replace (Z.to_nat (from - downto + 1)) with 0%nat by lia.
Qed.

Lemma for_up_unfold from bound body (s : store) :
  for_up from bound body s
  = if from <? bound
    then (body from ;; for_up (from + 1) bound body) s
    else ret tt s.
Proof.
  unfold for_up. destruct (Z.ltb_spec from bound).
  - replace (Z.to_nat (bound - from))
      with (S (Z.to_nat (bound - (from + 1)))) by lia.
    reflexivity.
  - by replace (Z.to_nat (bound - from)) with 0%nat by lia.
Qed.

Lemma set_tree_set_tree w w' (s : store) :
  set_tree w (set_tree w' s) = set_tree w s.
Proof. reflexivity. Qed.

Lemma set_tree_id (s : store) : set_tree (tree s) s = s.
Proof. by destruct s. Qed.

Lemma emitAll_app ps qs w : emitAll (ps ++ qs) w = emitAll qs (emitAll ps w).
Proof. apply foldl_app. Qed.

(** A counting loop whose body emits one patch per round. *)
Lemma rounds_emit n i step (f : Z -> IJsonPatch) s :
  let ps := (fun k => f (i + Z.of_nat k * step)) <$> seq 0 n in
  rounds n i step (fun j => emitPatch (f j)) s
  = (Ok tt, set_tree (emitAll ps (tree s)) s, EmitPatch <$> ps).
Proof.
  revert i s. induction n as [|n IH]; intros i s; cbn.
  - by rewrite set_tree_id.
  - unfold bind. cbn. rewrite IH. cbn zeta.
    assert (((fun k => f (i + step + Z.of_nat k * step)) <$> seq 0 n)
            = ((fun k => f (i + Z.of_nat k * step)) <$> seq 1 n)) as ->.
    { rewrite <- fmap_S_seq, <- list_fmap_compose.
      apply list_fmap_ext; intros ? k ?; cbn; f_equal; lia. }
    replace (i + Z.of_nat 0 * step) with i by lia. reflexivity.
Qed.

(** The second loop of [didChange]: one [add] patch per added element. *)
Lemma rounds_add index pre added s :
  rounds (length added) (Z.of_nat (length pre)) 1
    (fun i =>
       w <- get_tree ;;
       emitPatch
         (addPatch (index + i)
            (valueToSnapshot w (index_get undefined (pre ++ added) i)))) s
  = let ps := addPatches (tree s) (index + Z.of_nat (length pre)) added in
    (Ok tt, set_tree (emitAll ps (tree s)) s, EmitPatch <$> ps).
Proof.
  revert pre s. induction added as [|v added IH]; intros pre s; cbn.
  - by rewrite set_tree_id.
  - unfold bind. cbn.
    specialize (IH (pre ++ [v])). rewrite <- (assoc_L (++)) in IH. cbn in IH.
    rewrite length_app in IH. cbn in IH.
    replace (Z.of_nat (length pre) + 1) with (Z.of_nat (length pre + 1)) by lia.
    rewrite IH. cbn.
    assert (index_get undefined (pre ++ v :: added) (Z.of_nat (length pre)) = v) as ->.
    { unfold index_get. rewrite length_app. cbn.
      rewrite (proj2 (Z.leb_le _ _)) by lia.
      rewrite (proj2 (Z.ltb_lt _ _)) by lia.
      cbn. rewrite Nat2Z.id. by rewrite list_lookup_middle. }
    replace (index + Z.of_nat (length pre + 1)) with (index + Z.of_nat (length pre) + 1) by lia.
    done.
Qed.

Lemma addPatches_length w i l : length (addPatches w i l) = length l.
Proof. revert w i. induction l; intros; cbn; auto. Qed.

Lemma addPatches_op w i l : op <$> addPatches w i l = replicate (length l) "add"%string.
Proof. revert w i. induction l as [|v l IH]; intros; cbn; [done | by rewrite IH]. Qed.

Lemma addPatches_path w i l :
  path <$> addPatches w i l = numberToString <$> ascending i (length l).
Proof.
  revert w i. induction l as [|v l IH]; intros; cbn; [done|].
  rewrite IH. unfold ascending. cbn. rewrite Z.add_0_r. f_equal.
  rewrite <- fmap_S_seq, <- !list_fmap_compose.
  apply list_fmap_ext; intros ? k ?; cbn; f_equal; lia.
Qed.

Lemma emitted_emit ps : emitted (EmitPatch <$> ps) = ps.
Proof. induction ps; cbn; [done | by f_equal]. Qed.

Lemma didChange_splice_run index removedCount added removed s :
  let removes := removePatch <$> descending index removedCount in
  let adds := addPatches (emitAll removes (tree s)) index added in
  didChange
    (Splice index added (Z.of_nat (length added)) removed removedCount) s
  = (Ok tt, set_tree (emitAll (removes ++ adds) (tree s)) s,
     EmitPatch <$> (removes ++ adds)).
Proof.
  intros removes adds. unfold didChange, for_down, for_up.
  unfold bind at 1. rewrite rounds_emit. cbn zeta.
  replace (index + removedCount - 1 - index + 1) with removedCount by lia.
  assert (((fun k => removePatch (index + removedCount - 1 + Z.of_nat k * -1)) <$> seq 0 (Z.to_nat removedCount)) = removes) as ->.
  { unfold removes, descending. rewrite <- list_fmap_compose.
    apply list_fmap_ext; intros ? k ?; cbn; f_equal; lia. }
  replace (Z.of_nat (length added) - 0) with (Z.of_nat (length added)) by lia.
  rewrite Nat2Z.id.
  pose proof (rounds_add index [] added (set_tree (emitAll removes (tree s)) s)) as Hadd.
  change (Z.of_nat (length (@nil any))) with 0 in Hadd.
  change ([] ++ added) with added in Hadd.
  rewrite Z.add_0_r in Hadd. rewrite Hadd. cbn [tree set_tree].
  rewrite emitAll_app, fmap_app. done.
Qed.


(** *** Slices of well-formed ranges *)

Lemma slice_positions {A} (l : list A) lo hi :
  0 <= lo -> lo <= hi -> slice l lo (Some hi) = positions l lo hi.
Proof.
  intros Hlo Hhi. unfold slice, positions, relativeIndex.
  rewrite !(proj2 (Z.ltb_ge _ _)) by lia.
  destruct (Z.le_gt_cases (Z.of_nat (length l)) lo) as [Hout|Hin].
  - rewrite !drop_ge by lia. by rewrite !take_nil.
  - rewrite (Z.min_l lo) by lia.
    destruct (Z.le_gt_cases hi (Z.of_nat (length l))).
    + by rewrite Z.min_l by lia.
    + rewrite Z.min_r by lia.
      rewrite !take_ge; [done | rewrite length_drop; lia ..].
Qed.

Lemma slice_from {A} (l : list A) lo :
  0 <= lo -> slice l lo None = drop (Z.to_nat lo) l.
Proof.
  intros Hlo. unfold slice, relativeIndex.
  rewrite (proj2 (Z.ltb_ge _ _)) by lia.
  destruct (Z.le_gt_cases (Z.of_nat (length l)) lo) as [Hout|Hin].
  - rewrite !drop_ge by lia. by rewrite take_nil.
  - rewrite Z.min_l by lia. rewrite take_ge; [done | rewrite length_drop; lia].
Qed.

Lemma slice_prefix {A} (l : list A) hi :
  0 <= hi -> slice l 0 (Some hi) = take (Z.to_nat hi) l.
Proof.
  intros Hhi. rewrite slice_positions by lia. unfold positions.
  by rewrite Z.sub_0_r.
Qed.

(** *** Runs of the two iterations of unkeyed reconciliation *)

Lemma forEach_setParent k l (p : Z -> option string) s :
  exists w,
    forEach_from k l
      (fun v idx => maybeMST v (fun adm => setParent adm (p idx))) s
    = (Ok tt, set_tree w s, parentEvents p (indexed k l)).
Proof.
  revert k s. induction l as [|v l IH]; intros k s; cbn [forEach_from indexed].
  - exists (tree s). by rewrite set_tree_id.
  - assert (parentEvents p ((k, v) :: indexed (k + 1) l)
            = (if isMST v then [SetParent v (p k)] else [])
              ++ parentEvents p (indexed (k + 1) l)) as ->.
    { unfold parentEvents, nodes. cbn. by destruct (isMST v). }
    unfold bind. unfold maybeMST at 1. destruct (isMST v).
    + unfold setParent at 1.
      destruct (IH (k + 1) (set_tree (setParent_h v (p k) (tree s)) s))
        as [w Hw].
      rewrite Hw. exists w. reflexivity.
    + unfold ret at 1. destruct (IH (k + 1) s) as [w Hw]. rewrite Hw.
      by exists w.
Qed.

Lemma map_prepareChild k l (pth : Z -> string) b s :
  exists out w,
    length out = length l /\
    map_from k l (fun v pos => prepareChild (pth pos) v b) s
    = (Ok out, set_tree w s, prepareEvents pth b (indexed k l) out).
Proof.
  revert k s. induction l as [|v l IH]; intros k s; cbn [map_from indexed].
  - exists [], (tree s). by rewrite set_tree_id.
  - unfold bind. unfold prepareChild at 1.
    destruct (prepareChild_h (target s) (pth k) v b (tree s)) as [o w1] eqn:E.
    destruct (IH (k + 1) (set_tree w1 s)) as (out & w & Hlen & Hrun).
    rewrite Hrun. cbn [ret]. rewrite app_nil_r.
    exists (o :: out), w. split; [cbn; by rewrite Hlen|].
    reflexivity.
Qed.

(** *** Projections of the event lists *)

Lemma detached_app t1 t2 : detached (t1 ++ t2) = detached t1 ++ detached t2.
Proof. apply omap_app. Qed.

Lemma reparented_app t1 t2 :
  reparented (t1 ++ t2) = reparented t1 ++ reparented t2.
Proof. apply omap_app. Qed.

Lemma prepared_app t1 t2 : prepared (t1 ++ t2) = prepared t1 ++ prepared t2.
Proof. apply omap_app. Qed.

Lemma emitted_app t1 t2 : emitted (t1 ++ t2) = emitted t1 ++ emitted t2.
Proof. apply omap_app. Qed.

Lemma detached_clear l :
  detached (parentEvents (fun _ => None) l) = snd <$> nodes l.
Proof. unfold parentEvents. induction (nodes l); cbn; [done | by f_equal]. Qed.

Lemma detached_register f l :
  detached (parentEvents (fun j => Some (f j)) l) = [].
Proof. unfold parentEvents. induction (nodes l); cbn; done. Qed.

Lemma reparented_clear l : reparented (parentEvents (fun _ => None) l) = [].
Proof. unfold parentEvents. induction (nodes l); cbn; done. Qed.

Lemma reparented_register f l :
  reparented (parentEvents (fun j => Some (f j)) l)
  = (fun jv => (jv.2, f jv.1)) <$> nodes l.
Proof. unfold parentEvents. induction (nodes l); cbn; [done | by f_equal]. Qed.

Lemma prepared_parent p l : prepared (parentEvents p l) = [].
Proof. unfold parentEvents. induction (nodes l); cbn; done. Qed.

Lemma emitted_parent p l : emitted (parentEvents p l) = [].
Proof. unfold parentEvents. induction (nodes l); cbn; done. Qed.

Lemma detached_prepare pth b l out : detached (prepareEvents pth b l out) = [].
Proof.
  unfold prepareEvents. revert out.
  induction l as [|jv l IH]; intros [|o out]; cbn; try done. apply IH.
Qed.

Lemma reparented_prepare pth b l out :
  reparented (prepareEvents pth b l out) = [].
Proof.
  unfold prepareEvents. revert out.
  induction l as [|jv l IH]; intros [|o out]; cbn; try done. apply IH.
Qed.

Lemma emitted_prepare pth b l out : emitted (prepareEvents pth b l out) = [].
Proof.
  unfold prepareEvents. revert out.
  induction l as [|jv l IH]; intros [|o out]; cbn; try done. apply IH.
Qed.

Lemma prepared_prepare pth b l out :
  prepared (prepareEvents pth b l out)
  = zip_with (fun jv o => (pth jv.1, jv.2, b, o)) l out.
Proof.
  unfold prepareEvents. revert out.
  induction l as [|jv l IH]; intros [|o out]; cbn; try done.
  f_equal. apply IH.
Qed.

Lemma nodes_indexed k l : snd <$> nodes (indexed k l) = List.filter isMST l.
Proof.
  revert k. induction l as [|v l IH]; intros k; cbn; [done|].
  unfold nodes in *. cbn. destruct (isMST v); cbn; by rewrite IH.
Qed.

Lemma parentEvents_shift k j (p q : Z -> option string) l :
  (forall idx, p idx = q (k + idx)) ->
  parentEvents p (indexed j l) = parentEvents q (indexed (k + j) l).
Proof.
  intros Hpq. revert j. induction l as [|v l IH]; intros j; [done|].
  unfold parentEvents, nodes in *. cbn.
  replace (k + j + 1) with (k + (j + 1)) by lia.
  destruct (isMST v); cbn; rewrite IH; [by rewrite Hpq | done].
Qed.

Lemma prepareEvents_shift k j (f g : Z -> string) b l out :
  (forall idx, f idx = g (k + idx)) ->
  prepareEvents f b (indexed j l) out
  = prepareEvents g b (indexed (k + j) l) out.
Proof.
  intros Hfg. revert j out.
  induction l as [|v l IH]; intros j [|o out]; try done.
  unfold prepareEvents in *. cbn.
  replace (k + j + 1) with (k + (j + 1)) by lia.
  by rewrite IH, Hfg.
Qed.

(** *** Unkeyed reconciliation, in full *)

Lemma reconcileUnkeyedArrayItems_run index added removedCount s :
  0 <= index -> 0 <= removedCount ->
  let rc := Z.min removedCount (Z.of_nat (length added)) in
  exists reconciled created w,
    length reconciled = Z.to_nat rc /\
    length created = (length added - Z.to_nat rc)%nat /\
    reconcileUnkeyedArrayItems index added removedCount s
    = (Ok (reconciled ++ created), set_tree w s,
       reconcileEvents (target s) index added removedCount reconciled
         created).
Proof.
  intros Hi Hr rc. unfold reconcileUnkeyedArrayItems, reconcileEvents.
  fold rc. set (a := Z.of_nat (length added)).
  unfold forEach, mapM, reconcileExisting_default.
  rewrite slice_prefix, (slice_from added) by lia.
  unfold bind at 1. cbn [get_target].
  (* the items that will not be reconciled *)
  assert (exists w1,
    (if removedCount >? rc
     then forEach_from 0
            (slice (target s) (index + rc) (Some (index + removedCount)))
            (fun oldValue _ => maybeMST oldValue (fun adm => setParent adm None))
     else ret tt) s
    = (Ok tt, set_tree w1 s,
       parentEvents (fun _ => None)
         (indexed (index + rc)
            (positions (target s) (index + rc) (index + removedCount)))))
    as [w1 Hdrop].
  { destruct (removedCount >? rc) eqn:E.
    - rewrite slice_positions by lia.
      destruct (forEach_setParent 0
                  (positions (target s) (index + rc) (index + removedCount))
                  (fun _ => None) s) as [w1 Hw1].
      exists w1. rewrite Hw1.
      rewrite (parentEvents_shift (index + rc) 0 (fun _ => None)
                 (fun _ => None)) by done.
      by rewrite Z.add_0_r.
    - exists (tree s). rewrite set_tree_id.
      assert (removedCount = rc) as <- by lia.
      unfold positions. rewrite Z.sub_diag. cbn. done. }
  unfold bind at 1. rewrite Hdrop.
  unfold bind at 1. cbn [get_target].
  unfold bind at 1. cbn [target set_tree].
  rewrite slice_from by lia.
  destruct (forEach_setParent 0
              (drop (Z.to_nat (index + removedCount)) (target s))
              (fun idx => Some (numberToString
                 (index + removedCount + idx + (a - removedCount))))
              (set_tree w1 s)) as [w2 Hshift].
  rewrite Hshift. rewrite set_tree_set_tree.
  rewrite (parentEvents_shift (index + removedCount) 0 _
             (fun j => Some (numberToString (j + (a - removedCount)))))
    by done.
  unfold bind at 1.
  destruct (map_prepareChild 0 (take (Z.to_nat rc) added)
              (fun pos => numberToString (index + pos)) true (set_tree w2 s))
    as (reconciled & w3 & Hl3 & H3).
  rewrite H3. rewrite set_tree_set_tree.
  rewrite (prepareEvents_shift index 0 _ numberToString) by done.
  unfold bind at 1.
  destruct (map_prepareChild 0 (drop (Z.to_nat rc) added)
              (fun pos => numberToString (index + pos + rc)) false
              (set_tree w3 s))
    as (created & w4 & Hl4 & H4).
  rewrite H4. rewrite set_tree_set_tree.
  rewrite (prepareEvents_shift (index + rc) 0 _ numberToString)
    by (intros; f_equal; lia).
  exists reconciled, created, w4. cbn [ret].
  split; [rewrite Hl3, length_take; lia|].
  split; [rewrite Hl4, length_drop; lia|].
  rewrite app_nil_r, !Z.add_0_r. reflexivity.
Qed.

(** *** The interception hook *)

Lemma willChange_unwritable change s :
  writable (tree s) = false ->
  willChange change s = (Throw NotWritable, s, [AssertWritable]).
Proof.
  intros Hw. unfold willChange, bind. unfold assertWritable at 1.
  by rewrite Hw.
Qed.

Lemma willChange_splice_run index added removedCount s :
  writable (tree s) = true -> 0 <= index -> 0 <= removedCount ->
  exists reconciled created w,
    length reconciled
    = Z.to_nat (Z.min removedCount (Z.of_nat (length added))) /\
    length (reconciled ++ created) = length added /\
    willChange (WillSplice index added removedCount) s
    = (Ok (Some (WillSplice index (reconciled ++ created) removedCount)),
       set_tree w s,
       AssertWritable
       :: reconcileEvents (target s) index added removedCount reconciled
            created).
Proof.
  intros Hw Hi Hr.
  destruct (reconcileUnkeyedArrayItems_run index added removedCount s Hi Hr)
    as (reconciled & created & w & Hl1 & Hl2 & Hrun).
  exists reconciled, created, w. split; [done|]. split.
  { rewrite length_app, Hl1, Hl2. lia. }
  unfold willChange. unfold bind at 1. unfold assertWritable at 1.
  rewrite Hw. unfold bind. rewrite Hrun. cbn [ret].
  by rewrite app_nil_r.
Qed.

(** *** The observable array *)

Lemma clamp_bounds len index deleteCount :
  0 <= len ->
  let i := clampIndex len index in
  let r := clampCount len i deleteCount in
  0 <= i <= len /\ 0 <= r <= len - i.
Proof.
  intros Hlen. unfold clampIndex, clampCount.
  destruct (Z.gtb_spec index len); [lia|].
  destruct (Z.ltb_spec index 0); lia.
Qed.

Lemma clamp_id len index deleteCount :
  0 <= index <= len -> 0 <= deleteCount <= len - index ->
  clampIndex len index = index /\ clampCount len index deleteCount = deleteCount.
Proof.
  intros Hi Hr. unfold clampIndex, clampCount.
  destruct (Z.gtb_spec index len); [lia|].
  destruct (Z.ltb_spec index 0); lia.
Qed.

Lemma nativeSplice_wf {A} (l : list A) i r items :
  0 <= i <= Z.of_nat (length l) -> 0 <= r <= Z.of_nat (length l) - i ->
  nativeSplice l i r items
  = (take (Z.to_nat i) l ++ items ++ drop (Z.to_nat (i + r)) l,
     positions l i (i + r)).
Proof.
  intros Hi Hr. unfold nativeSplice, positions, relativeIndex.
  rewrite (proj2 (Z.ltb_ge _ _)) by lia.
  rewrite (Z.min_l i), (Z.max_l r), (Z.min_l r) by lia.
  by replace (i + r - i) with r by lia.
Qed.

Lemma positions_length {A} (l : list A) i r :
  0 <= i -> 0 <= r -> i + r <= Z.of_nat (length l) ->
  Z.of_nat (length (positions l i (i + r))) = r.
Proof.
  intros. unfold positions. rewrite length_take, length_drop. lia.
Qed.

Lemma descending_nil i : descending i 0 = [].
Proof. reflexivity. Qed.

(** An edit of a wired, writable container: the hook runs, the array is
    written, the patches are emitted. *)
Lemma observable_splice_hooked index deleteCount newItems s :
  interceptor s = true -> listener s = true -> writable (tree s) = true ->
  let l := target s in
  let i := clampIndex (Z.of_nat (length l)) index in
  let r := clampCount (Z.of_nat (length l)) i deleteCount in
  exists reconciled created w,
    length reconciled = Z.to_nat (Z.min r (Z.of_nat (length newItems))) /\
    length (reconciled ++ created) = length newItems /\
    willChange (WillSplice i newItems r) s
    = (Ok (Some (WillSplice i (reconciled ++ created) r)), set_tree w s,
       AssertWritable
       :: reconcileEvents l i newItems r reconciled created) /\
    let added := reconciled ++ created in
    let removes := removePatch <$> descending i r in
    let adds := addPatches (emitAll removes w) i added in
    observable_splice index deleteCount newItems s
    = (Ok (positions l i (i + r)),
       set_target (take (Z.to_nat i) l ++ added ++ drop (Z.to_nat (i + r)) l)
         (set_tree (emitAll (removes ++ adds) w) s),
       AssertWritable
       :: reconcileEvents l i newItems r reconciled created
       ++ Commit :: (EmitPatch <$> (removes ++ adds))).
Proof.
  intros Hint Hlis Hw l i r.
  destruct (clamp_bounds (Z.of_nat (length l)) index deleteCount) as [Hi Hr];
    [lia|]. fold i in Hi, Hr. fold r in Hr.
  destruct (willChange_splice_run i newItems r s Hw) as
    (reconciled & created & w & Hl1 & Hl2 & Hrun); [lia..|].
  exists reconciled, created, w. split; [done|]. split; [done|].
  split; [exact Hrun|].
  intros added removes adds.
  unfold observable_splice. unfold bind at 1. cbn [get_target].
  fold l. change (if index >? Z.of_nat (length l) then Z.of_nat (length l)
                  else if index <? 0 then Z.max 0 (Z.of_nat (length l) + index)
                  else index) with i.
  change (Z.max 0 (Z.min deleteCount (Z.of_nat (length l) - i))) with r.
  unfold bind at 1. unfold interceptChange. unfold bind at 1.
  cbn [hasInterceptors]. rewrite Hint. rewrite Hrun. fold added.
  rewrite nativeSplice_wf by lia.
  unfold bind at 1. cbn [commit]. unfold bind at 1.
  assert ((if negb (r =? 0) || negb (Z.of_nat (length added) =? 0)
           then notifyListeners
                  (Splice i added (Z.of_nat (length added))
                     (positions l i (i + r))
                     (Z.of_nat (length (positions l i (i + r)))))
           else ret tt)
            (set_target
               (take (Z.to_nat i) l ++ added ++ drop (Z.to_nat (i + r)) l)
               (set_tree w s))
          = (Ok tt,
             set_target
               (take (Z.to_nat i) l ++ added ++ drop (Z.to_nat (i + r)) l)
               (set_tree (emitAll (removes ++ adds) w) s),
             EmitPatch <$> (removes ++ adds))) as ->.
  { destruct (negb (r =? 0) || negb (Z.of_nat (length added) =? 0)) eqn:E.
    - unfold notifyListeners, bind. cbn [hasListeners listener set_target set_tree].
      rewrite Hlis. rewrite positions_length by lia.
      rewrite didChange_splice_run. reflexivity.
    - apply orb_false_elim in E as [E1 E2].
      apply negb_false_iff, Z.eqb_eq in E1, E2.
      assert (added = []) as Hnil by (apply nil_length_inv; lia).
      unfold adds, removes. rewrite E1, Hnil. reflexivity. }
  cbn [ret]. rewrite app_nil_r. cbn [app]. reflexivity.
Qed.

Lemma observable_splice_run index deleteCount newItems s :
  interceptor s = true -> listener s = true -> writable (tree s) = true ->
  let l := target s in
  let i := clampIndex (Z.of_nat (length l)) index in
  let r := clampCount (Z.of_nat (length l)) i deleteCount in
  exists reconciled created w,
    length reconciled = Z.to_nat (Z.min r (Z.of_nat (length newItems))) /\
    length (reconciled ++ created) = length newItems /\
    let added := reconciled ++ created in
    let removes := removePatch <$> descending i r in
    let adds := addPatches (emitAll removes w) i added in
    observable_splice index deleteCount newItems s
    = (Ok (positions l i (i + r)),
       set_target (take (Z.to_nat i) l ++ added ++ drop (Z.to_nat (i + r)) l)
         (set_tree (emitAll (removes ++ adds) w) s),
       AssertWritable
       :: reconcileEvents l i newItems r reconciled created
       ++ Commit :: (EmitPatch <$> (removes ++ adds))).
Proof.
  intros Hint Hlis Hw l i r.
  destruct (observable_splice_hooked index deleteCount newItems s Hint Hlis Hw)
    as (reconciled & created & w & Hl1 & Hl2 & _ & Hrun).
  by exists reconciled, created, w.
Qed.

(** *** Reading the trace of unkeyed reconciliation *)

Lemma commits_app t1 t2 : commits (t1 ++ t2) = (commits t1 + commits t2)%nat.
Proof. unfold commits. by rewrite List.filter_app, length_app. Qed.

Lemma commits_parent p l : commits (parentEvents p l) = 0%nat.
Proof. unfold parentEvents. induction (nodes l); cbn; done. Qed.

Lemma commits_prepare pth b l out : commits (prepareEvents pth b l out) = 0%nat.
Proof.
  unfold prepareEvents. revert out.
  induction l as [|jv l IH]; intros [|o out]; cbn; try done. apply IH.
Qed.

Lemma reparented_emit ps : reparented (EmitPatch <$> ps) = [].
Proof. induction ps; cbn; done. Qed.

Lemma prepared_emit ps : prepared (EmitPatch <$> ps) = [].
Proof. induction ps; cbn; done. Qed.

Lemma commits_reconcile l i added r reconciled created :
  commits (reconcileEvents l i added r reconciled created) = 0%nat.
Proof.
  unfold reconcileEvents.
  by rewrite !commits_app, !commits_parent, !commits_prepare.
Qed.

Lemma detached_reconcile l i added r reconciled created :
  detached (reconcileEvents l i added r reconciled created)
  = List.filter isMST
      (positions l (i + Z.min r (Z.of_nat (length added))) (i + r)).
Proof.
  unfold reconcileEvents.
  rewrite !detached_app, detached_clear, detached_register,
    !detached_prepare, !app_nil_r.
  apply nodes_indexed.
Qed.

Lemma reparented_reconcile l i added r reconciled created :
  reparented (reconcileEvents l i added r reconciled created)
  = (fun jv => (jv.2, numberToString (jv.1 + (Z.of_nat (length added) - r))))
    <$> nodes (indexed (i + r) (drop (Z.to_nat (i + r)) l)).
Proof.
  unfold reconcileEvents.
  rewrite !reparented_app, reparented_clear, !reparented_prepare, !app_nil_r.
  apply (reparented_register
           (fun j => numberToString (j + (Z.of_nat (length added) - r)))).
Qed.

Lemma zip_with_indexed {B} (f : Z -> any -> B) k l (out : list any) :
  zip_with (fun jv o => (f jv.1 jv.2, o)) (indexed k l) out
  = zip (imap (fun pos v => f (k + Z.of_nat pos) v) l) out.
Proof.
  revert k out. induction l as [|v l IH]; intros k [|o out]; try done.
  cbn. rewrite Z.add_0_r. f_equal. rewrite IH. f_equal.
  apply imap_ext. intros pos x _. cbn. f_equal. lia.
Qed.

Lemma prepared_reconcile l i added r reconciled created :
  let rc := Z.min r (Z.of_nat (length added)) in
  prepared (reconcileEvents l i added r reconciled created)
  = zip (imap (fun pos v => (numberToString (i + Z.of_nat pos), v, true))
           (take (Z.to_nat rc) added)) reconciled
    ++ zip (imap (fun pos v =>
                    (numberToString (i + rc + Z.of_nat pos), v, false))
              (drop (Z.to_nat rc) added)) created.
Proof.
  intros rc. unfold reconcileEvents. fold rc.
  rewrite !prepared_app, !prepared_parent, !prepared_prepare.
  cbn [app].
  by rewrite (zip_with_indexed (fun j v => (numberToString j, v, true))),
    (zip_with_indexed (fun j v => (numberToString j, v, false))).
Qed.

Lemma positions_lookup {A} (l : list A) lo hi (k : nat) :
  0 <= lo ->
  positions l lo hi !! k
  = if bool_decide (lo + Z.of_nat k < hi) then l !! (Z.to_nat lo + k)%nat
    else None.
Proof.
  intros Hlo. unfold positions. case_bool_decide.
  - rewrite lookup_take_lt by lia. by rewrite lookup_drop.
  - by rewrite lookup_take_ge by lia.
Qed.

Lemma nodes_shift {B} d k l (f : Z -> any -> B) :
  (fun jv => f (jv.1 + d) jv.2) <$> nodes (indexed k l)
  = (fun jv => f jv.1 jv.2) <$> nodes (indexed (k + d) l).
Proof.
  revert k. induction l as [|v l IH]; intros k; [done|].
  unfold nodes in *. cbn.
  replace (k + d + 1) with (k + 1 + d) by lia.
  destruct (isMST v); cbn; by rewrite IH.
Qed.

(** C6. In unkeyed reconciliation of a splice at [index] removing
    [removedCount] and adding [added], the children detached by
    [setParent(null)] are exactly the nodes among the current elements at
    the positions from [index + min removedCount (length added)] up to
    [index + removedCount], in order; when no more is removed than is
    added, nothing is detached. *)
Theorem reconcileUnkeyed_detaches_dropped index added removedCount s :
  0 <= index -> 0 <= removedCount ->
  let reconcilableCount := Z.min removedCount (Z.of_nat (length added)) in
  exists out s' t,
    reconcileUnkeyedArrayItems index added removedCount s = (Ok out, s', t) /\
    detached t
    = List.filter isMST
        (positions (target s) (index + reconcilableCount)
           (index + removedCount)) /\
    (removedCount <= Z.of_nat (length added) -> detached t = []).
Proof.
  intros Hi Hr rc.
  destruct (reconcileUnkeyedArrayItems_run index added removedCount s Hi Hr)
    as (reconciled & created & w & _ & _ & Hrun).
  eexists _, _, _. split; [exact Hrun|].
  rewrite detached_reconcile. split; [done|].
  intros Hle. unfold positions.
  replace (index + removedCount
           - (index + Z.min removedCount (Z.of_nat (length added))))
    with 0 by lia.
  done.
Qed.

(** C8. Unkeyed reconciliation returns the values [prepareChild] gave for
    the first [min removedCount (length added)] added entries, asked with
    path [index + pos] and [reconcileExisting = true], followed by the
    values it gave for the remaining entries, asked with path
    [index + reconcilableCount + pos] and [reconcileExisting = false];
    the returned list is as long as [added], and the hook hands the splice
    back with this list as its payload and with its index and removal
    count unchanged. *)
Theorem reconcileUnkeyed_payload index added removedCount s :
  0 <= index -> 0 <= removedCount -> writable (tree s) = true ->
  let reconcilableCount := Z.min removedCount (Z.of_nat (length added)) in
  exists reconciled created s' t,
    reconcileUnkeyedArrayItems index added removedCount s
    = (Ok (reconciled ++ created), s', t) /\
    prepared t
    = zip (imap (fun pos v =>
                   (numberToString (index + Z.of_nat pos), v, true))
             (take (Z.to_nat reconcilableCount) added)) reconciled
      ++ zip (imap (fun pos v =>
                      (numberToString
                         (index + reconcilableCount + Z.of_nat pos), v,
                       false))
                (drop (Z.to_nat reconcilableCount) added)) created /\
    length reconciled = Z.to_nat reconcilableCount /\
    length created = (length added - Z.to_nat reconcilableCount)%nat /\
    length (reconciled ++ created) = length added /\
    willChange (WillSplice index added removedCount) s
    = (Ok (Some (WillSplice index (reconciled ++ created) removedCount)),
       s', AssertWritable :: t).
Proof.
  intros Hi Hr Hw rc.
  destruct (reconcileUnkeyedArrayItems_run index added removedCount s Hi Hr)
    as (reconciled & created & w & Hl1 & Hl2 & Hrun).
  exists reconciled, created, (set_tree w s). eexists.
  split; [exact Hrun|]. split; [apply prepared_reconcile|].
  split; [done|]. split; [done|].
  split; [rewrite length_app, Hl1, Hl2; lia|].
  unfold willChange. unfold bind at 1. unfold assertWritable at 1.
  rewrite Hw. unfold bind. rewrite Hrun. cbn [ret].
  by rewrite app_nil_r.
Qed.

(** C7. In unkeyed reconciliation every current element behind the edited
    region (at an index [j >= index + removedCount]) that is a node is
    registered to the collection again with the path [j + delta], where
    [delta = length added - removedCount]; in the edit of the container
    these registrations come before the array is written, and the path
    given to each such node is the index it has in the written array. *)
Theorem reconcileUnkeyed_reindexes_survivors index added removedCount s :
  interceptor s = true -> listener s = true -> writable (tree s) = true ->
  0 <= index -> 0 <= removedCount ->
  index + removedCount <= Z.of_nat (length (target s)) ->
  let delta := Z.of_nat (length added) - removedCount in
  (exists out s' t,
     reconcileUnkeyedArrayItems index added removedCount s = (Ok out, s', t) /\
     target s' = target s /\
     reparented t
     = (fun jv => (jv.2, numberToString (jv.1 + delta)))
       <$> nodes (indexed (index + removedCount)
                    (drop (Z.to_nat (index + removedCount)) (target s)))) /\
  (exists removed s' pre post,
     observable_splice index removedCount added s
     = (Ok removed, s', pre ++ Commit :: post) /\
     commits pre = 0%nat /\
     reparented post = [] /\
     reparented pre
     = (fun jv => (jv.2, numberToString jv.1))
       <$> nodes (indexed (index + Z.of_nat (length added))
                    (drop (Z.to_nat (index + Z.of_nat (length added)))
                       (target s')))).
Proof.
  intros Hint Hlis Hw Hi Hr Hlen delta. split.
  - destruct (reconcileUnkeyedArrayItems_run index added removedCount s Hi Hr)
      as (reconciled & created & w & _ & _ & Hrun).
    eexists _, _, _. split; [exact Hrun|]. split; [done|].
    apply reparented_reconcile.
  - destruct (observable_splice_run index removedCount added s Hint Hlis Hw)
      as (reconciled & created & w & Hl1 & Hl2 & Hrun).
    destruct (clamp_id (Z.of_nat (length (target s))) index removedCount)
      as [Ei Er]; [lia..|].
    cbn zeta in Hrun. rewrite Ei, Er in Hrun. rewrite Ei, Er in Hl1.
    eexists _, _, (AssertWritable :: _), _.
    split; [exact Hrun|].
    split. { apply (commits_reconcile (target s)). }
    split. { apply reparented_emit. }
    assert (forall t, reparented (AssertWritable :: t) = reparented t) as ->
      by done.
    rewrite reparented_reconcile. cbn [target set_target].
    replace (Z.to_nat (index + Z.of_nat (length added)))
      with (length (take (Z.to_nat index) (target s))
            + length (reconciled ++ created))%nat
      by (rewrite length_take, Hl2; lia).
    rewrite <- drop_drop, !drop_app_length.
    replace (index + Z.of_nat (length added)) with (index + removedCount + delta)
      by (unfold delta; lia).
    apply (nodes_shift delta (index + removedCount) _
             (fun j v => (v, numberToString j))).
Qed.

Lemma addPatches_lookup w i l (k : nat) v :
  l !! k = Some v ->
  exists w', addPatches w i l !! k
             = Some (addPatch (i + Z.of_nat k) (valueToSnapshot w' v)).
Proof.
  revert w i k. induction l as [|x l IH]; intros w i k Hk; [done|].
  destruct k as [|k]; cbn [addPatches lookup list_lookup] in *.
  - injection Hk as ->. exists w. by rewrite Z.add_0_r.
  - destruct (IH (emitPatch_h (addPatch i (valueToSnapshot w x)) w) (i + 1) k Hk)
      as [w' Hw'].
    exists w'. etrans; [exact Hw'|]. do 2 f_equal. lia.
Qed.

Lemma addPatches_triples w i l :
  patchTriple <$> addPatches w i l
  = imap (fun k v =>
            ("add"%string, numberToString (i + Z.of_nat k),
             Some (valueToSnapshot (emitAll (take k (addPatches w i l)) w) v)))
      l.
Proof.
  revert w i. induction l as [|v l IH]; intros w i; [done|].
  cbn [addPatches fmap list_fmap imap]. f_equal.
  - unfold patchTriple. cbn. by rewrite Z.add_0_r.
  - rewrite IH. apply imap_ext. intros k x _. cbn.
    do 2 f_equal. f_equal. lia.
Qed.

(** C1. For a committed splice at [index] that removed [removedCount]
    elements and added [added], the observation hook returns, its calls
    are [emitPatch] calls only, and the patches it hands over are, read
    field by field: first one patch per removed position with the
    operation remove, the paths [index + removedCount - 1, ..., index] in
    this descending order, and no value; then one patch per added
    element with the operation add, the paths [index, ..., index + length
    added - 1] in ascending order, and as value the snapshot of its
    element, taken in the tree as the patches emitted before it left
    it.  Removing two and adding three at index 1 emits remove 2,
    remove 1, add 1, add 2, add 3. *)
Theorem didChange_splice_patch_order index removedCount added removed s :
  let run :=
    didChange
      (Splice index added (Z.of_nat (length added)) removed removedCount) s in
  let ps := emitted run.2 in
  run.1.1 = Ok tt /\
  run.2 = EmitPatch <$> ps /\
  patchTriple <$> ps
  = ((fun j => ("remove"%string, numberToString j, None))
     <$> descending index removedCount)
    ++ imap (fun k v =>
               ("add"%string, numberToString (index + Z.of_nat k),
                Some (valueToSnapshot
                        (emitAll (take (Z.to_nat removedCount + k) ps)
                           (tree s)) v)))
         added /\
  (forall b c x y z,
     (fun p => (op p, path p))
     <$> emitted (didChange (Splice 1 [x; y; z] 3 [b; c] 2) s).2
     = [("remove", "2"); ("remove", "1");
        ("add", "1"); ("add", "2"); ("add", "3")]%string).
Proof.
  intros run ps. unfold ps, run. rewrite didChange_splice_run.
  cbn [fst snd]. rewrite emitted_emit.
  split; [done|]. split; [done|]. split.
  - rewrite fmap_app, <- list_fmap_compose, addPatches_triples. f_equal.
    apply imap_ext. intros k v _. cbn. do 3 f_equal.
    assert (Z.to_nat removedCount
            = length (removePatch <$> descending index removedCount)) as ->.
    { unfold descending. by rewrite !length_fmap, length_seq. }
    by rewrite take_app_add, emitAll_app.
  - intros b c x y z.
    change 3 with (Z.of_nat (length [x; y; z])).
    rewrite (didChange_splice_run 1 2 [x; y; z] [b; c] s).
    cbn [snd]. rewrite emitted_emit. reflexivity.
Qed.

(** *** The veto of an update that changes nothing *)

Lemma willChange_update_same index newValue s :
  strict_eq newValue (index_get undefined (target s) index) = true ->
  willChange (WillUpdate index newValue) s
  = (if writable (tree s) then Ok None else Throw NotWritable, s,
     [AssertWritable]).
Proof.
  intros Hsame. unfold willChange, bind. unfold assertWritable at 1.
  destruct (writable (tree s)); [|done].
  cbn [get_target]. by rewrite Hsame.
Qed.

(** C9. A single-slot update whose new value is identical to the value
    the slot holds is vetoed: on a writable node the interception hook
    returns null after its writability check, without calling
    [prepareChild]; the container is not written, and no patch is
    emitted. *)
Theorem willChange_same_value_vetoes index newValue s :
  0 <= index < Z.of_nat (length (target s)) ->
  strict_eq newValue (index_get undefined (target s) index) = true ->
  writable (tree s) = true ->
  willChange (WillUpdate index newValue) s = (Ok None, s, [AssertWritable]) /\
  exists t,
    observable_set index newValue s = (Ok tt, s, t) /\
    commits t = 0%nat /\ prepared t = [] /\ emitted t = [] /\
    detached t = [] /\ reparented t = [].
Proof.
  intros Hrange Hsame Hw. pose proof (willChange_update_same _ _ _ Hsame) as E.
  rewrite Hw in E. split; [done|].
  unfold observable_set. unfold bind at 1. cbn [get_target].
  rewrite (proj2 (Z.leb_le _ _)), (proj2 (Z.ltb_lt _ _)) by lia.
  cbn [andb]. unfold bind at 1. unfold interceptChange, bind.
  cbn [hasInterceptors]. destruct (interceptor s).
  - rewrite E. by exists [AssertWritable].
  - cbn [ret]. rewrite Hsame. cbn [negb ret]. by exists [].
Qed.

(** C10. A patch whose operation is none of add, remove and replace is
    ignored: the container and the tree are left as they are, nothing is
    thrown and no call is made. *)
Theorem applyPatchLocally_unknown_op subpath patch s :
  op patch <> "add"%string -> op patch <> "remove"%string ->
  op patch <> "replace"%string ->
  applyPatchLocally subpath patch s = (Ok tt, s, []).
Proof.
  intros Hadd Hremove Hreplace. unfold applyPatchLocally, bind.
  cbn [get_target].
  by rewrite (proj2 (String.eqb_neq _ _) Hadd),
    (proj2 (String.eqb_neq _ _) Hremove),
    (proj2 (String.eqb_neq _ _) Hreplace).
Qed.

(** *** Identity-based reconciliation *)

Lemma unused_free current key :
  current !! key = None -> inheritedKey key = false ->
  unused current key = true.
Proof.
  unfold unused, lookupCurrent, inheritedKey. intros -> Hkey.
  destruct (inherited key); [by rewrite Hkey | done].
Qed.

Lemma indexCurrent_ok attr items current s :
  NoDup (identifierKey attr <$> items) ->
  (forall c, c ∈ items -> current !! identifierKey attr c = None) ->
  Forall (fun c => inheritedKey (identifierKey attr c) = false) items ->
  indexCurrent attr items current s = (Ok (filed attr items current), s, []).
Proof.
  revert current.
  induction items as [|c items IH]; intros current Hnd Hfree Hown.
  - reflexivity.
  - cbn [indexCurrent]. fold (identifierKey attr c).
    rewrite fmap_cons in Hnd. apply NoDup_cons in Hnd as [Hc Hnd].
    apply Forall_cons in Hown as [Hownc Hown].
    unfold bind. unfold invariant at 1.
    rewrite unused_free by (by (apply Hfree; left) || done). cbn [ret].
    rewrite IH; [done | done | | done].
    intros c' Hc'. rewrite lookup_insert_ne; [apply Hfree; by right|].
    intros Heq. apply Hc. rewrite Heq. by apply list_elem_of_fmap_2.
Qed.

Lemma indexCurrent_throws attr items current s :
  Forall (fun c => truthy c = true) items ->
  (forall k v, current !! k = Some v -> truthy v = true) ->
  ~ NoDup (identifierKey attr <$> items)
  \/ (exists c, c ∈ items /\ is_Some (current !! identifierKey attr c)) ->
  exists k, indexCurrent attr items current s = (Throw (NotUnique k), s, []).
Proof.
  revert current.
  induction items as [|c items IH]; intros current Htr Hcur Hdup.
  - destruct Hdup as [Hdup|(c & Hc & _)].
    + destruct Hdup. constructor.
    + by apply elem_of_nil in Hc.
  - cbn [indexCurrent]. fold (identifierKey attr c).
    apply Forall_cons in Htr as [Htc Htr].
    unfold bind. unfold invariant at 1.
    destruct (unused current (identifierKey attr c)) eqn:Eu;
      [|cbn; by eexists].
    assert (current !! identifierKey attr c = None) as Ev.
    { unfold unused, lookupCurrent in Eu.
      destruct (current !! identifierKey attr c) as [v|] eqn:Ev; [|done].
      by rewrite (Hcur _ _ Ev) in Eu. }
    cbn [ret].
    destruct (IH (<[identifierKey attr c := c]> current) Htr) as [k Hk].
    + intros k v. rewrite lookup_insert. case_decide.
      * by intros [= <-].
      * apply Hcur.
    + destruct (decide (identifierKey attr c ∈ identifierKey attr <$> items))
        as [Hin|Hnotin].
      * right. apply list_elem_of_fmap in Hin as (c' & Heq & Hc').
        exists c'. split; [done|]. rewrite <- Heq, lookup_insert_eq. by eexists.
      * destruct Hdup as [Hdup|(c' & Hc' & Hsome)].
        -- left. intros Hnd. apply Hdup. rewrite fmap_cons.
           by apply NoDup_cons.
        -- apply elem_of_cons in Hc' as [->|Hc'].
           ++ rewrite Ev in Hsome. by destruct Hsome.
           ++ right. exists c'. split; [done|].
              rewrite lookup_insert_ne; [done|].
              intros Heq. apply Hnotin. rewrite Heq.
              by apply list_elem_of_fmap_2.
    + rewrite Hk. by exists k.
Qed.

Lemma filed_lookup attr items current k :
  NoDup (identifierKey attr <$> items) ->
  filed attr items current !! k
  = match List.find (fun c => String.eqb (identifierKey attr c) k) items with
    | Some c => Some c
    | None => current !! k
    end.
Proof.
  revert current. induction items as [|c items IH]; intros current Hnd.
  - reflexivity.
  - rewrite fmap_cons in Hnd. apply NoDup_cons in Hnd as [Hc Hnd].
    unfold filed in *. cbn [foldl List.find]. rewrite IH by done.
    destruct (String.eqb_spec (identifierKey attr c) k) as [Heq|Hne].
    + assert (List.find (fun c0 => String.eqb (identifierKey attr c0) k) items
              = None) as ->.
      { destruct (List.find _ items) as [c'|] eqn:Ef; [|done].
        apply find_some in Ef as [Hin Hk]. apply String.eqb_eq in Hk.
        destruct Hc. rewrite Heq, <- Hk.
        apply list_elem_of_fmap_2. by apply list_elem_of_In. }
      by rewrite Heq, lookup_insert_eq.
    + destruct (List.find _ items); [done|]. by rewrite lookup_insert_ne.
Qed.

Lemma reconcileItem_run attr target item s :
  NoDup (identifierKey attr <$> target) ->
  Forall (fun c => truthy c = true) target ->
  inheritedKey (identifierKey attr item) = false ->
  reconcileItem attr (filed attr target ∅) item s
  = match keptChild attr target item with
    | Some c =>
        (Ok c, set_tree (applySnapshot_h c item (tree s)) s,
         [ApplySnapshot c item])
    | None =>
        (Ok (subType_create item (tree s)).1,
         set_tree (subType_create item (tree s)).2 s,
         [Create item (subType_create item (tree s)).1])
    end.
Proof.
  intros Hnd Htr Hitem.
  unfold reconcileItem, lookupCurrent, keptChild, existingChild.
  fold (identifierKey attr item).
  rewrite filed_lookup by done. rewrite lookup_empty.
  destruct (List.find _ target) as [c|] eqn:Ef.
  - apply find_some in Ef as [Hin _].
    rewrite Forall_forall in Htr.
    rewrite (Htr c) by (by apply list_elem_of_In). cbn [andb].
    destruct (typeIs c item).
    + unfold bind, core_applySnapshot. reflexivity.
    + unfold create. by destruct (subType_create item (tree s)).
  - unfold inheritedKey in Hitem.
    destruct (inherited (identifierKey attr item)) as [f|];
      [rewrite Hitem; cbn [andb]|];
      unfold create; by destruct (subType_create item (tree s)).
Qed.

Lemma map_reconcileItem attr target k snapshot s :
  NoDup (identifierKey attr <$> target) ->
  Forall (fun c => truthy c = true) target ->
  Forall (fun item => inheritedKey (identifierKey attr item) = false)
    snapshot ->
  exists out w,
    length out = length snapshot /\
    Forall2 (fun item o => forall c, keptChild attr target item = Some c -> o = c)
      snapshot out /\
    map_from k snapshot
      (fun item _ => reconcileItem attr (filed attr target ∅) item) s
    = (Ok out, set_tree w s, zip_with (itemEvent attr target) snapshot out).
Proof.
  intros Hnd Htr Hsnap. revert k s.
  induction snapshot as [|item snapshot IH]; intros k s; cbn [map_from].
  - exists [], (tree s). rewrite set_tree_id. by repeat split.
  - apply Forall_cons in Hsnap as [Hitem Hsnap]. specialize (IH Hsnap).
    unfold bind. rewrite reconcileItem_run by done.
    destruct (keptChild attr target item) as [c|] eqn:Ek.
    + destruct (IH (k + 1) (set_tree (applySnapshot_h c item (tree s)) s))
        as (out & w & Hlen & Hall & Hrun).
      rewrite Hrun. exists (c :: out), w. cbn [ret length].
      split; [by rewrite Hlen|]. split.
      { constructor; [|done]. rewrite Ek. by intros ? [= <-]. }
      cbn [zip_with].
      assert (itemEvent attr target item c = ApplySnapshot c item) as ->
        by (unfold itemEvent; by rewrite Ek).
      rewrite app_nil_r. reflexivity.
    + destruct (IH (k + 1) (set_tree (subType_create item (tree s)).2 s))
        as (out & w & Hlen & Hall & Hrun).
      rewrite Hrun. exists ((subType_create item (tree s)).1 :: out), w.
      cbn [ret length].
      split; [by rewrite Hlen|]. split.
      { constructor; [|done]. rewrite Ek. by intros ?. }
      cbn [zip_with].
      assert (forall o, itemEvent attr target item o = Create item o) as ->
        by (intros; unfold itemEvent; by rewrite Ek).
      rewrite app_nil_r. reflexivity.
Qed.

Lemma reconcileArrayItems_run attr target snapshot s :
  NoDup (identifierKey attr <$> target) ->
  Forall (fun c => truthy c = true) target ->
  Forall (fun c => inheritedKey (identifierKey attr c) = false) target ->
  Forall (fun item => inheritedKey (identifierKey attr item) = false)
    snapshot ->
  exists out w,
    length out = length snapshot /\
    Forall2 (fun item o => forall c, keptChild attr target item = Some c -> o = c)
      snapshot out /\
    reconcileArrayItems attr target snapshot s
    = (Ok out, set_tree w s, zip_with (itemEvent attr target) snapshot out).
Proof.
  intros Hnd Htr Hown Hsnap. unfold reconcileArrayItems, bind.
  rewrite indexCurrent_ok by done. cbn [app].
  destruct (map_reconcileItem attr target 0 snapshot s Hnd Htr Hsnap)
    as (out & w & Hlen & Hall & Hrun).
  unfold mapM. rewrite Hrun. by exists out, w.
Qed.

(** Two existing elements with one identifier value fail the invariant:
    the error leaves [reconcileArrayItems] and [applySnapshot] uncaught,
    before any call is made and before the container is written. *)
Lemma reconcileArrayItems_existing_duplicate attr target snapshot s :
  Forall (fun c => truthy c = true) target ->
  ~ NoDup (identifierKey attr <$> target) ->
  exists k,
    reconcileArrayItems attr target snapshot s = (Throw (NotUnique k), s, []).
Proof.
  intros Htr Hdup.
  destruct (indexCurrent_throws attr target ∅ s Htr) as [k Hk].
  - intros k v. by rewrite lookup_empty.
  - by left.
  - exists k. unfold reconcileArrayItems, bind. by rewrite Hk.
Qed.

Lemma applySnapshot_existing_duplicate attr snapshot s :
  identifierAttr_truthy identifierAttribute = Some attr ->
  Forall (fun c => truthy c = true) (target s) ->
  ~ NoDup (identifierKey attr <$> target s) ->
  exists k, applySnapshot snapshot s = (Throw (NotUnique k), s, []).
Proof.
  intros Hattr Htr Hdup.
  destruct (reconcileArrayItems_existing_duplicate attr (target s) snapshot s
              Htr Hdup) as [k Hk].
  exists k. unfold applySnapshot. unfold bind at 1. cbn [get_target].
  rewrite Hattr. unfold bind. by rewrite Hk.
Qed.


Lemma existingChild_some attr target item c :
  existingChild attr target item = Some c ->
  c ∈ target /\ identifierKey attr c = identifierKey attr item.
Proof.
  unfold existingChild. intros Hf. apply find_some in Hf as [Hin Hk].
  split; [by apply list_elem_of_In | by apply String.eqb_eq].
Qed.

(** *** Edits of the container pass through the hooks *)

Lemma emitted_reconcile l i added r reconciled created :
  emitted (reconcileEvents l i added r reconciled created) = [].
Proof.
  unfold reconcileEvents.
  by rewrite !emitted_app, !emitted_parent, !emitted_prepare.
Qed.

Lemma identityWork_app t1 t2 :
  identityWork (t1 ++ t2) = identityWork t1 ++ identityWork t2.
Proof. apply List.filter_app. Qed.

Lemma identityWork_parent p l : identityWork (parentEvents p l) = [].
Proof. unfold parentEvents. induction (nodes l); cbn; done. Qed.

Lemma identityWork_prepare pth b l out :
  identityWork (prepareEvents pth b l out) = [].
Proof.
  unfold prepareEvents. revert out.
  induction l as [|jv l IH]; intros [|o out]; cbn; try done. apply IH.
Qed.

Lemma identityWork_emit ps : identityWork (EmitPatch <$> ps) = [].
Proof. induction ps; cbn; done. Qed.

Lemma identityWork_reconcile l i added r reconciled created :
  identityWork (reconcileEvents l i added r reconciled created) = [].
Proof.
  unfold reconcileEvents.
  by rewrite !identityWork_app, !identityWork_parent, !identityWork_prepare.
Qed.




(** *** Patches applied to the live container *)

Lemma observable_set_run index newValue s :
  interceptor s = true -> listener s = true -> writable (tree s) = true ->
  0 <= index < Z.of_nat (length (target s)) ->
  strict_eq newValue (index_get undefined (target s) index) = false ->
  let oldValue := index_get undefined (target s) index in
  let o := (prepareChild_h (target s) (numberToString index) newValue true
              (tree s)).1 in
  let w := (prepareChild_h (target s) (numberToString index) newValue true
              (tree s)).2 in
  observable_set index newValue s
  = if strict_eq o oldValue then
      (Ok tt, set_tree w s,
       [AssertWritable; PrepareChild (numberToString index) newValue true o])
    else
      (Ok tt,
       set_target (<[Z.to_nat index := o]> (target s))
         (set_tree (emitPatch_h (replacePatch index (valueToSnapshot w o)) w)
            s),
       [AssertWritable; PrepareChild (numberToString index) newValue true o;
        Commit; EmitPatch (replacePatch index (valueToSnapshot w o))]).
Proof.
  intros Hint Hlis Hw Hrange Hdiff oldValue o w.
  unfold observable_set. unfold bind at 1. cbn [get_target].
  rewrite (proj2 (Z.leb_le _ _)), (proj2 (Z.ltb_lt _ _)) by lia.
  cbn [andb]. unfold bind at 1. unfold interceptChange, bind at 1.
  cbn [hasInterceptors]. rewrite Hint.
  unfold willChange. unfold bind at 1. unfold assertWritable at 1.
  rewrite Hw. unfold bind at 1. cbn [get_target]. rewrite Hdiff.
  unfold bind at 1. unfold prepareChild, reconcileExisting_default.
  fold oldValue.
  destruct (prepareChild_h (target s) (numberToString index) newValue true
              (tree s)) as [o' w'] eqn:E.
  subst o w. cbn [fst snd ret app].
  destruct (strict_eq o' oldValue); cbn [negb]; [done|].
  unfold bind, commit, notifyListeners, bind.
  cbn [hasListeners listener set_target set_tree]. rewrite Hlis.
  reflexivity.
Qed.

(** C4 (as amended). [applyPatchLocally] applies a patch as an ordinary
    edit of the live container, so the edit passes through the
    interception hook.  On a wired, writable container: an add patch runs
    the hook and makes exactly one [prepareChild] call, for the patch
    value at the insertion index with [reconcileExisting = false], and
    inserts the prepared value; a remove patch runs the hook and calls
    [prepareChild] for nothing; a replace patch that changes an occupied
    slot runs the hook and makes exactly one [prepareChild] call, for the
    patch value at the index of the slot with [reconcileExisting = true].
    Identity-based reconciliation is never invoked. *)
Theorem applyPatchLocally_runs_hook subpath patch s :
  interceptor s = true -> listener s = true -> writable (tree s) = true ->
  let l := target s in
  let len := Z.of_nat (length l) in
  let index := if String.eqb subpath "-" then len else parseInt subpath in
  let v := default undefined (value patch) in
  let i := clampIndex len index in
  (op patch = "add"%string ->
   exists o s' t,
     applyPatchLocally subpath patch s = (Ok tt, s', t) /\
     head t = Some AssertWritable /\
     prepared t = [(numberToString i, v, false, o)] /\
     target s' = take (Z.to_nat i) l ++ [o] ++ drop (Z.to_nat i) l /\
     identityWork t = []) /\
  (op patch = "remove"%string ->
   exists s' t,
     applyPatchLocally subpath patch s = (Ok tt, s', t) /\
     head t = Some AssertWritable /\
     prepared t = [] /\
     target s'
     = take (Z.to_nat i) l ++ drop (Z.to_nat (i + clampCount len i 1)) l /\
     identityWork t = []) /\
  (op patch = "replace"%string ->
   0 <= index < len ->
   strict_eq v (index_get undefined l index) = false ->
   exists o s' t,
     applyPatchLocally subpath patch s = (Ok tt, s', t) /\
     head t = Some AssertWritable /\
     prepared t = [(numberToString index, v, true, o)] /\
     target s'
     = (if strict_eq o (index_get undefined l index) then l
        else <[Z.to_nat index := o]> l) /\
     identityWork t = []).
Proof.
  intros Hint Hlis Hw l len index v i. split; [|split].
  - intros Hop. unfold applyPatchLocally. unfold bind at 1.
    cbn [get_target]. fold l len index v. rewrite Hop.
    change (String.eqb "add" "replace") with false.
    change (String.eqb "add" "add") with true. cbn match.
    destruct (observable_splice_run index 0 [v] s Hint Hlis Hw)
      as (reconciled & created & w & Hl1 & Hl2 & Hrun).
    cbn zeta in Hrun. fold l len i in Hrun, Hl1.
    assert (clampCount len i 0 = 0) as Er.
    { unfold clampCount.
      destruct (clamp_bounds len index 0) as [Hi _]; [lia|]. fold i in Hi.
      lia. }
    rewrite Er in Hrun, Hl1. cbn in Hl1.
    destruct reconciled; [|done]. cbn [app] in *.
    destruct created as [|o [|? ?]]; try done.
    unfold bind. rewrite Hrun. cbn [ret].
    eexists o, _, _. split; [reflexivity|]. split; [done|].
    rewrite app_nil_r, Z.add_0_r. cbn [target set_target].
    change (prepared (AssertWritable :: ?t)) with (prepared t).
    change (identityWork (AssertWritable :: ?t)) with (identityWork t).
    rewrite prepared_app, identityWork_app, prepared_reconcile,
      identityWork_reconcile.
    change (prepared (Commit :: ?t)) with (prepared t).
    change (identityWork (Commit :: ?t)) with (identityWork t).
    rewrite prepared_emit, identityWork_emit.
    change (Z.min 0 (Z.of_nat (length [v]))) with 0.
    split; [|done].
    change (take (Z.to_nat 0) [v]) with (@nil any).
    change (drop (Z.to_nat 0) [v]) with [v].
    cbn [imap zip zip_with app Z.of_nat]. by rewrite !Z.add_0_r.
  - intros Hop. unfold applyPatchLocally. unfold bind at 1.
    cbn [get_target]. fold l len index v. rewrite Hop.
    change (String.eqb "remove" "replace") with false.
    change (String.eqb "remove" "add") with false.
    change (String.eqb "remove" "remove") with true. cbn match.
    destruct (observable_splice_run index 1 [] s Hint Hlis Hw)
      as (reconciled & created & w & Hl1 & Hl2 & Hrun).
    cbn zeta in Hrun. fold l len i in Hrun, Hl1.
    destruct reconciled, created; try done.
    unfold bind. rewrite Hrun. cbn [ret app].
    eexists _, _. split; [reflexivity|]. split; [done|].
    rewrite app_nil_r. cbn [target set_target].
    change (prepared (AssertWritable :: ?t)) with (prepared t).
    change (identityWork (AssertWritable :: ?t)) with (identityWork t).
    rewrite prepared_app, identityWork_app, prepared_reconcile,
      identityWork_reconcile.
    change (prepared (Commit :: ?t)) with (prepared t).
    change (identityWork (Commit :: ?t)) with (identityWork t).
    rewrite prepared_emit, identityWork_emit.
    split; [|done]. cbn. by rewrite take_nil, drop_nil.
  - intros Hop Hrange Hdiff. unfold applyPatchLocally. unfold bind at 1.
    cbn [get_target]. fold l len index v. rewrite Hop.
    change (String.eqb "replace" "replace") with true. cbn match.
    rewrite (observable_set_run index v s Hint Hlis Hw Hrange Hdiff).
    cbn zeta. fold l.
    set (o := (prepareChild_h l (numberToString index) v true (tree s)).1).
    destruct (strict_eq o (index_get undefined l index)) eqn:E;
      exists o; eexists _, _; (split; [reflexivity|]); rewrite E;
      by repeat split.
Qed.

End Properties.

(** * Runs on the small tree layer *)

Section Runs.
Import Demo.

(** The splice of the spec, through the whole pipeline: removing two and
    inserting three at index 1 of [a, b, c, d]. *)
Example splice_abcd :
  let '(r, s', t) :=
    observable_splice 1 2 [DStr "x"; DStr "y"; DStr "z"]
      (wired [DStr "a"; DStr "b"; DStr "c"; DStr "d"] empty_world) in
  r = Ok [DStr "b"; DStr "c"] /\
  target s' = [DStr "a"; DStr "x"; DStr "y"; DStr "z"; DStr "d"] /\
  emitted t
  = [removePatch 2; removePatch 1; addPatch 1 (DStr "x");
     addPatch 2 (DStr "y"); addPatch 3 (DStr "z")].
Proof. vm_compute. by repeat split. Qed.

Lemma didChange_splice_patch_order_witness :
  let s := wired [DStr "a"; DStr "x"; DStr "y"; DStr "z"; DStr "d"]
             empty_world in
  patchTriple
  <$> emitted
        (didChange
           (Splice 1 [DStr "x"; DStr "y"; DStr "z"] 3 [DStr "b"; DStr "c"] 2)
           s).2
  = [("remove", "2", None); ("remove", "1", None);
     ("add", "1", Some (DStr "x")); ("add", "2", Some (DStr "y"));
     ("add", "3", Some (DStr "z"))]%string.
Proof.
  intros s.
  exact (proj1 (proj2 (proj2
           (didChange_splice_patch_order (TL := demo_tree) 1 2
              [DStr "x"; DStr "y"; DStr "z"] [DStr "b"; DStr "c"] s)))).
Defined.

(** C2, at the failing input: the container [n1, n2] with the
    identifiers 1 and 2 takes a snapshot whose two entries both carry the
    identifier 2.  No invariant fails: both snapshots are applied onto
    [n2] and [n2] is returned twice; the container then holds it twice,
    and the next [applySnapshot] meets the duplicate among the existing
    elements and throws. *)
Lemma reconcileArrayItems_incoming_duplicate :
  let s := wired [DNode 0 1; DNode 1 2] two_nodes in
  let snapshot := [DRaw 2 "B"; DRaw 2 "c"] in
  (reconcileArrayItems "id" (target s) snapshot s).1.1
  = Ok [DNode 1 2; DNode 1 2] /\
  (reconcileArrayItems "id" (target s) snapshot s).2
  = [ApplySnapshot (DNode 1 2) (DRaw 2 "B");
     ApplySnapshot (DNode 1 2) (DRaw 2 "c")] /\
  (applySnapshot snapshot s).1.1 = Ok tt /\
  target (applySnapshot snapshot s).1.2 = [DNode 1 2; DNode 1 2] /\
  (bind (applySnapshot snapshot) (fun _ => applySnapshot snapshot) s).1.1
  = Throw (NotUnique "2").
Proof. vm_compute. by repeat split. Qed.


(** Hydration from the snapshot [{id: 1, v: "a"}, {id: 2, v: "b"}]: the
    hooks are registered, two nodes are created, and two add patches
    carry their snapshots. *)
Example finalizeNewInstance_two_elements :
  let run :=
    finalizeNewInstance [DRaw 1 "a"; DRaw 2 "b"]
      (createNewInstance empty_world) in
  run.1.1 = Ok tt /\
  interceptor run.1.2 = true /\ listener run.1.2 = true /\
  target run.1.2 = [DNode 0 1; DNode 1 2] /\
  patchTriple <$> emitted run.2
  = [("add", "0", Some (DRaw 1 "a")); ("add", "1", Some (DRaw 2 "b"))]%string.
Proof. vm_compute. by repeat split. Qed.


(** C4, as stated, fails: appending by a patch calls [prepareChild]. *)
Lemma applyPatchLocally_runs_hook_counterexample :
  prepared
    (applyPatchLocally "-"
       append_x
       (wired [] empty_world)).2
  <> [].
Proof. vm_compute. discriminate. Qed.

Lemma applyPatchLocally_runs_hook_witness :
  exists o s' t,
    applyPatchLocally "-"
      append_x
      (wired [DStr "a"] empty_world) = (Ok tt, s', t) /\
    head t = Some AssertWritable /\
    prepared t = [("1"%string, DStr "x", false, o)] /\
    target s' = [DStr "a"; o] /\
    identityWork t = [].
Proof.
  apply (applyPatchLocally_runs_hook (TL := demo_tree) "-"
           append_x
           (wired [DStr "a"] empty_world));
    reflexivity.
Defined.

(** C5, at the failing input: the container holds one node, whose
    identifier is the string "constructor", and the snapshot has one
    entry with that identifier, which the node's type accepts.  The
    identifier is unique in the container, and the claim has the entry
    applied onto the node and the node kept.  The invariant fails
    instead: the object in which the elements are filed answers under
    "constructor" before anything is filed, with the property it inherits
    from [Object.prototype].  [reconcileArrayItems] throws the
    uniqueness violation for "constructor" and [applySnapshot] lets it
    through with the container unwritten.  With the identifier "first"
    in place of "constructor" the node is kept, as the claim says. *)
Lemma reconcileArrayItems_inherited_identifier :
  let s := wired [DNodeS 0 "constructor"] one_named in
  let entry := DRawS "constructor" "B" in
  identifierKey "id" <$> target s = ["constructor"%string] /\
  existingChild "id" (target s) entry = Some (DNodeS 0 "constructor") /\
  typeIs (DNodeS 0 "constructor") entry = true /\
  lookupCurrent ∅ "constructor" = Some (DBuiltin "constructor") /\
  (reconcileArrayItems "id" (target s) [entry] s).1.1
  = Throw (NotUnique "constructor") /\
  (reconcileArrayItems "id" (target s) [entry] s).2 = [] /\
  (applySnapshot [entry] s).1.1 = Throw (NotUnique "constructor") /\
  target (applySnapshot [entry] s).1.2 = [DNodeS 0 "constructor"] /\
  (applySnapshot [entry] s).2 = [] /\
  (let s' := wired [DNodeS 0 "first"] one_named in
   (reconcileArrayItems "id" (target s') [DRawS "first" "B"] s').1.1
   = Ok [DNodeS 0 "first"] /\
   (reconcileArrayItems "id" (target s') [DRawS "first" "B"] s').2
   = [ApplySnapshot (DNodeS 0 "first") (DRawS "first" "B")]).
Proof. cbv zeta. repeat apply conj; vm_compute; reflexivity. Qed.

(** The identity-based example of the spec, through [applySnapshot]: the
    node of identifier 2 is kept and now holds "B", the node of
    identifier 1 is dropped, a node is created for identifier 3, and the
    order is the order of the snapshot. *)
Example applySnapshot_identity_example :
  let '(r, s', t) :=
    applySnapshot [DRaw 2 "B"; DRaw 3 "c"]
      (wired [DNode 0 1; DNode 1 2] two_nodes) in
  r = Ok tt /\
  target s' = [DNode 1 2; DNode 2 3] /\
  valueToSnapshot (tree s') <$> target s' = [DRaw 2 "B"; DRaw 3 "c"] /\
  identityWork t
  = [ApplySnapshot (DNode 1 2) (DRaw 2 "B");
     Create (DRaw 3 "c") (DNode 2 3)].
Proof. vm_compute. by repeat split. Qed.

Lemma reconcileUnkeyed_detaches_dropped_witness :
  let s := wired [DNode 0 1; DNode 1 2; DNode 2 3; DStr "z"] empty_world in
  exists out s' t,
    reconcileUnkeyedArrayItems 1 [DRaw 9 "x"] 2 s = (Ok out, s', t) /\
    detached t = [DNode 2 3] /\
    (2 <= 1 -> detached t = []).
Proof.
  intros s. apply (reconcileUnkeyed_detaches_dropped (TL := demo_tree) 1 [DRaw 9 "x"] 2 s); lia.
Defined.

Lemma reconcileUnkeyed_payload_witness :
  let s := wired [DNode 0 1; DNode 1 2; DNode 2 3; DStr "z"] empty_world in
  exists reconciled created s' t,
    reconcileUnkeyedArrayItems 1 [DRaw 7 "x"; DRaw 8 "y"; DRaw 9 "z"] 2 s
    = (Ok (reconciled ++ created), s', t) /\
    prepared t
    = zip [("1"%string, DRaw 7 "x", true); ("2"%string, DRaw 8 "y", true)]
        reconciled
      ++ zip [("3"%string, DRaw 9 "z", false)] created /\
    length reconciled = 2%nat /\
    length created = 1%nat /\
    length (reconciled ++ created) = 3%nat /\
    willChange (WillSplice 1 [DRaw 7 "x"; DRaw 8 "y"; DRaw 9 "z"] 2) s
    = (Ok (Some (WillSplice 1 (reconciled ++ created) 2)), s',
       AssertWritable :: t).
Proof.
  intros s.
  apply (reconcileUnkeyed_payload (TL := demo_tree) 1 [DRaw 7 "x"; DRaw 8 "y"; DRaw 9 "z"] 2 s);
    [lia | lia | reflexivity].
Defined.

Lemma reconcileUnkeyed_reindexes_survivors_witness :
  let s := wired [DNode 0 1; DNode 1 2; DNode 2 3; DNode 3 4] empty_world in
  (exists out s' t,
     reconcileUnkeyedArrayItems 1 [] 1 s = (Ok out, s', t) /\
     target s' = target s /\
     reparented t = [(DNode 2 3, "1"%string); (DNode 3 4, "2"%string)]) /\
  (exists removed s' pre post,
     observable_splice 1 1 [] s = (Ok removed, s', pre ++ Commit :: post) /\
     commits pre = 0%nat /\
     reparented post = [] /\
     reparented pre
     = (fun jv => (jv.2, numberToString jv.1))
       <$> nodes (indexed 1 (drop 1 (target s')))).
Proof.
  intros s.
  apply (reconcileUnkeyed_reindexes_survivors (TL := demo_tree) 1 [] 1 s);
    try reflexivity; cbn; lia.
Defined.

Lemma willChange_same_value_vetoes_witness :
  let s := wired [DStr "a"; DStr "b"] empty_world in
  willChange (WillUpdate 1 (DStr "b")) s = (Ok None, s, [AssertWritable]) /\
  exists t,
    observable_set 1 (DStr "b") s = (Ok tt, s, t) /\
    commits t = 0%nat /\ prepared t = [] /\ emitted t = [] /\
    detached t = [] /\ reparented t = [].
Proof.
  intros s.
  apply (willChange_same_value_vetoes (TL := demo_tree) 1 (DStr "b") s);
    [cbn; lia | reflexivity | reflexivity].
Defined.

Lemma applyPatchLocally_unknown_op_witness :
  let s := wired [DStr "a"] empty_world in
  applyPatchLocally "0" move_0 s
  = (Ok tt, s, []).
Proof.
  intros s.
  apply (applyPatchLocally_unknown_op (TL := demo_tree) "0"
           move_0 s);
    cbn; discriminate.
Defined.

End Runs.

(** * Further properties

    The remaining methods of [ArrayType], and what the hooks, the patch
    application and the two reconciliations do on every input. *)

Section MoreProperties.
Context {JS : JSValues} {TL : TreeLayer} {ET : ElementType}.
Context {R10 : Radix10}.

(** *** Unkeyed reconciliation on every input *)

Lemma slice_split {A} (l : list A) k :
  slice l 0 (Some k) ++ slice l k None = l.
Proof.
  unfold slice. remember (Z.of_nat (length l)) as len eqn:Elen.
  assert (0 <= len) as Hlen by lia.
  assert (relativeIndex len 0 = 0) as ->.
  { unfold relativeIndex. rewrite (proj2 (Z.ltb_ge 0 0)) by lia. lia. }
  assert (0 <= relativeIndex len k <= len) as Hk.
  { unfold relativeIndex. destruct (Z.ltb_spec k 0); lia. }
  rewrite Z.sub_0_r. change (drop (Z.to_nat 0) l) with l.
  rewrite (take_ge (drop _ _)) by (rewrite length_drop; lia).
  apply take_drop.
Qed.

Lemma prepared_raw_prepare pth b k (l out : list any) :
  length out = length l ->
  preparedRaw (prepareEvents pth b (indexed k l) out) = l.
Proof.
  unfold preparedRaw. rewrite prepared_prepare. revert k out.
  induction l as [|v l IH]; intros k [|o out] Hlen; try done.
  cbn. f_equal. apply IH. by injection Hlen.
Qed.

Lemma prepared_out_prepare pth b k (l out : list any) :
  length out = length l ->
  preparedOut (prepareEvents pth b (indexed k l) out) = out.
Proof.
  unfold preparedOut. rewrite prepared_prepare. revert k out.
  induction l as [|v l IH]; intros k [|o out] Hlen; try done.
  cbn. f_equal. apply IH. by injection Hlen.
Qed.

Lemma reconcileUnkeyedArrayItems_any index added removedCount s :
  let rc := Z.min removedCount (Z.of_nat (length added)) in
  exists dropped out1 out2 w,
    length out1 = length (slice added 0 (Some rc)) /\
    length out2 = length (slice added rc None) /\
    reconcileUnkeyedArrayItems index added removedCount s
    = (Ok (out1 ++ out2), set_tree w s,
       parentEvents (fun _ => None) dropped
       ++ parentEvents
            (fun idx =>
               Some (numberToString
                       (index + removedCount + idx
                        + (Z.of_nat (length added) - removedCount))))
            (indexed 0 (slice (target s) (index + removedCount) None))
       ++ prepareEvents (fun pos => numberToString (index + pos)) true
            (indexed 0 (slice added 0 (Some rc))) out1
       ++ prepareEvents (fun pos => numberToString (index + pos + rc)) false
            (indexed 0 (slice added rc None)) out2).
Proof.
  intros rc. unfold reconcileUnkeyedArrayItems. fold rc.
  unfold forEach, mapM, reconcileExisting_default.
  unfold bind at 1. cbn [get_target].
  assert (exists dropped w1,
    (if removedCount >? rc
     then forEach_from 0
            (slice (target s) (index + rc) (Some (index + removedCount)))
            (fun oldValue _ => maybeMST oldValue (fun adm => setParent adm None))
     else ret tt) s
    = (Ok tt, set_tree w1 s, parentEvents (fun _ => None) dropped))
    as (dropped & w1 & Hdrop).
  { destruct (removedCount >? rc).
    - destruct (forEach_setParent 0
                  (slice (target s) (index + rc) (Some (index + removedCount)))
                  (fun _ => None) s) as [w1 Hw1].
      by eexists _, w1.
    - exists [], (tree s). by rewrite set_tree_id. }
  unfold bind at 1. rewrite Hdrop.
  unfold bind at 1. cbn [get_target].
  unfold bind at 1. cbn [target set_tree].
  destruct (forEach_setParent 0
              (slice (target s) (index + removedCount) None)
              (fun idx => Some (numberToString
                 (index + removedCount + idx
                  + (Z.of_nat (length added) - removedCount))))
              (set_tree w1 s)) as [w2 Hshift].
  rewrite Hshift. rewrite set_tree_set_tree.
  unfold bind at 1.
  destruct (map_prepareChild 0 (slice added 0 (Some rc))
              (fun pos => numberToString (index + pos)) true (set_tree w2 s))
    as (out1 & w3 & Hl3 & H3).
  rewrite H3. rewrite set_tree_set_tree.
  unfold bind at 1.
  destruct (map_prepareChild 0 (slice added rc None)
              (fun pos => numberToString (index + pos + rc)) false
              (set_tree w3 s))
    as (out2 & w4 & Hl4 & H4).
  rewrite H4. rewrite set_tree_set_tree.
  exists dropped, out1, out2, w4. cbn [ret].
  split; [done|]. split; [done|].
  rewrite app_nil_r. reflexivity.
Qed.

(** X1. Unkeyed reconciliation handles every splice it is given, also
    one whose index or removal count is negative or beyond the
    container: it returns normally, calls [prepareChild] exactly once for
    every added value, in the order of [added], returns the values these
    calls gave, in the same order, and neither writes the container nor
    emits a patch. *)
Theorem reconcileUnkeyed_prepares_every_value index added removedCount s :
  exists out s' t,
    reconcileUnkeyedArrayItems index added removedCount s = (Ok out, s', t) /\
    target s' = target s /\
    length out = length added /\
    preparedRaw t = added /\
    preparedOut t = out /\
    emitted t = [] /\
    commits t = 0%nat.
Proof.
  destruct (reconcileUnkeyedArrayItems_any index added removedCount s)
    as (dropped & out1 & out2 & w & Hl1 & Hl2 & Hrun).
  eexists _, _, _. split; [exact Hrun|]. split; [done|].
  split.
  { rewrite length_app, Hl1, Hl2, <- length_app. by rewrite slice_split. }
  unfold preparedRaw, preparedOut.
  rewrite !prepared_app, !prepared_parent, !fmap_app. cbn [app].
  fold (preparedRaw (prepareEvents (fun pos => numberToString (index + pos))
    true (indexed 0 (slice added 0
      (Some (Z.min removedCount (Z.of_nat (length added)))))) out1)).
  fold (preparedRaw (prepareEvents
    (fun pos => numberToString
       (index + pos + Z.min removedCount (Z.of_nat (length added))))
    false (indexed 0 (slice added
      (Z.min removedCount (Z.of_nat (length added))) None)) out2)).
  fold (preparedOut (prepareEvents (fun pos => numberToString (index + pos))
    true (indexed 0 (slice added 0
      (Some (Z.min removedCount (Z.of_nat (length added)))))) out1)).
  fold (preparedOut (prepareEvents
    (fun pos => numberToString
       (index + pos + Z.min removedCount (Z.of_nat (length added))))
    false (indexed 0 (slice added
      (Z.min removedCount (Z.of_nat (length added))) None)) out2)).
  rewrite !prepared_raw_prepare, !prepared_out_prepare by done.
  split; [apply slice_split|]. split; [done|].
  split.
  - by rewrite !emitted_app, !emitted_parent, !emitted_prepare.
  - by rewrite !commits_app, !commits_parent, !commits_prepare.
Qed.

Lemma filter_positions_drop (l : list any) lo hi :
  0 <= lo -> lo <= hi ->
  List.filter isMST (positions l lo hi)
  ++ List.filter isMST (drop (Z.to_nat hi) l)
  = List.filter isMST (drop (Z.to_nat lo) l).
Proof.
  intros Hlo Hhi. unfold positions. rewrite <- List.filter_app.
  replace (Z.to_nat hi) with (Z.to_nat lo + Z.to_nat (hi - lo))%nat by lia.
  rewrite <- drop_drop. by rewrite take_drop.
Qed.

(** X2. Unkeyed reconciliation gives a new parent entry to exactly the
    nodes that sit at or behind the first slot it does not reconcile
    (index + min removedCount (length added)), each of them once, in
    container order: the dropped ones are detached and the ones behind
    the edited region are registered again.  It never calls [setParent]
    for an element in front of the edited region or in a reconciled
    slot. *)
Theorem reconcileUnkeyed_setParent_coverage index added removedCount s :
  0 <= index -> 0 <= removedCount ->
  let reconcilableCount := Z.min removedCount (Z.of_nat (length added)) in
  exists out s' t,
    reconcileUnkeyedArrayItems index added removedCount s = (Ok out, s', t) /\
    detached t ++ (fst <$> reparented t)
    = List.filter isMST
        (drop (Z.to_nat (index + reconcilableCount)) (target s)).
Proof.
  intros Hi Hr rc.
  destruct (reconcileUnkeyedArrayItems_run index added removedCount s Hi Hr)
    as (reconciled & created & w & _ & _ & Hrun).
  eexists _, _, _. split; [exact Hrun|].
  rewrite detached_reconcile, reparented_reconcile.
  rewrite <- list_fmap_compose.
  rewrite <- (filter_positions_drop (target s) (index + rc)
                (index + removedCount)) by lia.
  f_equal. rewrite <- (nodes_indexed (index + removedCount)).
  by apply list_fmap_ext.
Qed.

(** *** The hooks on every input *)

Lemma commits_cons_prepare p c b o t :
  commits (PrepareChild p c b o :: t) = commits t.
Proof. reflexivity. Qed.

Lemma reconcileUnkeyedArrayItems_quiet index added removedCount s :
  exists out w t,
    reconcileUnkeyedArrayItems index added removedCount s
    = (Ok out, set_tree w s, t) /\
    emitted t = [] /\ commits t = 0%nat.
Proof.
  destruct (reconcileUnkeyedArrayItems_any index added removedCount s)
    as (dropped & out1 & out2 & w & _ & _ & Hrun).
  eexists _, _, _. split; [exact Hrun|]. split.
  - by rewrite !emitted_app, !emitted_parent, !emitted_prepare.
  - by rewrite !commits_app, !commits_parent, !commits_prepare.
Qed.

(** X3. The interception hook checks writability before anything else:
    its first call is always [assertWritable]; on a node that is not
    writable it throws not-writable for every edit and calls nothing
    else; on a writable node it returns, null only for an update. For
    every edit it leaves the container unwritten and emits no patch. *)
Theorem willChange_checks_writable_first change s :
  exists r s' t,
    willChange change s = (r, s', AssertWritable :: t) /\
    target s' = target s /\
    emitted t = [] /\ commits t = 0%nat /\
    (if writable (tree s)
     then exists answer, r = Ok answer /\
            (answer = None -> exists i v, change = WillUpdate i v)
     else r = Throw NotWritable /\ s' = s /\ t = []).
Proof.
  destruct (writable (tree s)) eqn:Hw.
  2:{ rewrite willChange_unwritable by done.
      eexists _, _, _. split; [reflexivity|]. by repeat split. }
  unfold willChange. unfold bind at 1. unfold assertWritable at 1.
  rewrite Hw. destruct change as [index newValue|index added removedCount].
  - unfold bind at 1. cbn [get_target].
    destruct (strict_eq newValue (index_get undefined (target s) index)).
    + cbn [ret app]. eexists _, _, _. split; [reflexivity|].
      repeat split; try done. eexists. split; [done|]. by eexists _, _.
    + unfold bind, prepareChild.
      destruct (prepareChild_h _ _ _ _ _) as [o w].
      cbn [ret app]. eexists _, _, _. split; [reflexivity|].
      repeat split; try done. eexists. split; [done|]. done.
  - destruct (reconcileUnkeyedArrayItems_quiet index added removedCount s)
      as (out & w & t & Hrun & Hem & Hco).
    unfold bind. rewrite Hrun. cbn [ret app].
    eexists _, _, _. split; [reflexivity|]. rewrite app_nil_r.
    repeat split; try done. eexists. split; [done|]. done.
Qed.

Lemma rounds_add_any index added n i s :
  exists ps,
    patchTriple <$> ps
    = (fun k =>
         ("add"%string, numberToString (index + (i + Z.of_nat k)),
          Some (valueToSnapshot (emitAll (take k ps) (tree s))
                  (index_get undefined added (i + Z.of_nat k)))))
      <$> seq 0 n /\
    rounds n i 1
      (fun j =>
         w <- get_tree ;;
         emitPatch
           (addPatch (index + j)
              (valueToSnapshot w (index_get undefined added j)))) s
    = (Ok tt, set_tree (emitAll ps (tree s)) s, EmitPatch <$> ps).
Proof.
  revert i s. induction n as [|n IH]; intros i s.
  - exists []. cbn. by rewrite set_tree_id.
  - cbn [rounds]. unfold bind at 1. unfold bind at 1. cbn [get_tree].
    unfold emitPatch at 1.
    set (p := addPatch (index + i)
                (valueToSnapshot (tree s) (index_get undefined added i))).
    destruct (IH (i + 1) (set_tree (emitPatch_h p (tree s)) s))
      as (ps & Htriples & Hrun).
    rewrite Hrun. exists (p :: ps). split; [|reflexivity].
    cbn [seq fmap list_fmap]. rewrite <- fmap_S_seq. f_equal.
    + unfold patchTriple, p. cbn. by rewrite Z.add_0_r.
    + rewrite Htriples, <- list_fmap_compose.
      apply list_fmap_ext. intros ? k ?. cbn.
      by replace (i + 1 + Z.of_nat k) with (i + Z.of_nat (S k)) by lia.
Qed.

(** X5. The observation hook does nothing but emit patches, for every
    committed edit it is handed: it never throws, never writes the
    container, and its calls are [emitPatch] calls only.  Read field by
    field, an update gives exactly one patch: operation replace, the
    path of the slot, and as value the snapshot of the new value.  A
    splice gives one patch per removed position, with the operation
    remove, descending paths and no value, followed by [addedCount]
    patches with the operation add, ascending paths from the index and
    as value the snapshot of the element of [added] at that position, the
    snapshot of [undefined] where the list of added values is shorter
    than [addedCount]; every snapshot is taken in the tree as the patches
    emitted before left it. *)
Theorem didChange_only_emits change s :
  let run := didChange change s in
  let ps := emitted run.2 in
  run.1.1 = Ok tt /\
  target run.1.2 = target s /\
  tree run.1.2 = emitAll ps (tree s) /\
  run.2 = EmitPatch <$> ps /\
  match change with
  | Update index newValue _ =>
      patchTriple <$> ps
      = [("replace"%string, numberToString index,
          Some (valueToSnapshot (tree s) newValue))]
  | Splice index added addedCount _ removedCount =>
      patchTriple <$> ps
      = ((fun j => ("remove"%string, numberToString j, None))
         <$> descending index removedCount)
        ++ ((fun k =>
               ("add"%string, numberToString (index + Z.of_nat k),
                Some (valueToSnapshot
                        (emitAll (take (Z.to_nat removedCount + k) ps)
                           (tree s))
                        (index_get undefined added (Z.of_nat k)))))
            <$> seq 0 (Z.to_nat addedCount))
  end.
Proof.
  intros run ps. unfold ps, run. clear run ps.
  destruct change as [index newValue oldValue
                     |index added addedCount removed removedCount].
  - by repeat split.
  - set (change := Splice index added addedCount removed removedCount).
    assert (exists ps,
      didChange change s
      = (Ok tt, set_tree (emitAll ps (tree s)) s, EmitPatch <$> ps) /\
      patchTriple <$> ps
      = ((fun j => ("remove"%string, numberToString j, None))
         <$> descending index removedCount)
        ++ ((fun k =>
               ("add"%string, numberToString (index + Z.of_nat k),
                Some (valueToSnapshot
                        (emitAll (take (Z.to_nat removedCount + k) ps)
                           (tree s))
                        (index_get undefined added (Z.of_nat k)))))
            <$> seq 0 (Z.to_nat addedCount))) as (ps & Hrun & Htriples).
    { unfold change, didChange, for_down, for_up. unfold bind at 1.
      rewrite rounds_emit. cbn zeta.
      replace (index + removedCount - 1 - index + 1) with removedCount by lia.
      assert (((fun k =>
                  removePatch (index + removedCount - 1 + Z.of_nat k * -1))
               <$> seq 0 (Z.to_nat removedCount))
              = removePatch <$> descending index removedCount) as ->.
      { unfold descending. rewrite <- list_fmap_compose.
        apply list_fmap_ext; intros ? k ?; cbn; f_equal; lia. }
      set (removes := removePatch <$> descending index removedCount).
      destruct (rounds_add_any index added (Z.to_nat (addedCount - 0)) 0
                  (set_tree (emitAll removes (tree s)) s))
        as (adds & Htriples & Hrun).
      rewrite Hrun. cbn [tree set_tree]. exists (removes ++ adds).
      rewrite emitAll_app, !fmap_app. split; [reflexivity|].
      assert (length removes = Z.to_nat removedCount) as Hrem.
      { unfold removes, descending. by rewrite !length_fmap, length_seq. }
      f_equal.
      + unfold removes. by rewrite <- list_fmap_compose.
      + rewrite Htriples, Z.sub_0_r. cbn [tree set_tree].
        apply list_fmap_ext. intros ? k ?. cbn.
        rewrite <- Hrem, take_app_add, emitAll_app. by rewrite Z.add_0_l. }
    rewrite Hrun. cbn [fst snd tree target set_tree].
    by rewrite emitted_emit.
Qed.

(** *** Single edits of a wired container *)

Lemma detached_emit ps : detached (EmitPatch <$> ps) = [].
Proof. induction ps; cbn; done. Qed.

Lemma commits_emit ps : commits (EmitPatch <$> ps) = 0%nat.
Proof. induction ps; cbn; done. Qed.

Lemma parentEvents_ext (p q : Z -> option string) l :
  (forall j, p j = q j) -> parentEvents p l = parentEvents q l.
Proof.
  intros Hpq. unfold parentEvents. apply list_fmap_ext. intros ? jv ?.
  by rewrite Hpq.
Qed.

(** The trace of an edit: what the hook does, the write, the patches. *)
Lemma edit_trace_commits evs ps :
  commits evs = 0%nat ->
  commits (AssertWritable :: evs ++ Commit :: (EmitPatch <$> ps)) = 1%nat.
Proof.
  intros Hevs. change (commits (AssertWritable :: ?t)) with (commits t).
  rewrite commits_app, Hevs.
  change (commits (Commit :: ?t)) with (S (commits t)).
  by rewrite commits_emit.
Qed.

Lemma edit_trace_emitted evs ps :
  emitted evs = [] ->
  emitted (AssertWritable :: evs ++ Commit :: (EmitPatch <$> ps)) = ps.
Proof.
  intros Hevs. change (emitted (AssertWritable :: ?t)) with (emitted t).
  rewrite emitted_app, Hevs.
  change (emitted (Commit :: ?t)) with (emitted t).
  apply emitted_emit.
Qed.

Lemma edit_trace_prepared evs ps :
  prepared (AssertWritable :: evs ++ Commit :: (EmitPatch <$> ps))
  = prepared evs.
Proof.
  change (prepared (AssertWritable :: ?t)) with (prepared t).
  rewrite prepared_app.
  change (prepared (Commit :: ?t)) with (prepared t).
  by rewrite prepared_emit, app_nil_r.
Qed.

Lemma edit_trace_detached evs ps :
  detached (AssertWritable :: evs ++ Commit :: (EmitPatch <$> ps))
  = detached evs.
Proof.
  change (detached (AssertWritable :: ?t)) with (detached t).
  rewrite detached_app.
  change (detached (Commit :: ?t)) with (detached t).
  by rewrite detached_emit, app_nil_r.
Qed.

Lemma edit_trace_reparented evs ps :
  reparented (AssertWritable :: evs ++ Commit :: (EmitPatch <$> ps))
  = reparented evs.
Proof.
  change (reparented (AssertWritable :: ?t)) with (reparented t).
  rewrite reparented_app.
  change (reparented (Commit :: ?t)) with (reparented t).
  by rewrite reparented_emit, app_nil_r.
Qed.

(** Removing one element from a wired, writable container. *)
Lemma observable_splice_remove index s :
  interceptor s = true -> listener s = true -> writable (tree s) = true ->
  let l := target s in
  let i := clampIndex (Z.of_nat (length l)) index in
  let r := clampCount (Z.of_nat (length l)) i 1 in
  exists s' t,
    observable_splice index 1 [] s = (Ok (positions l i (i + r)), s', t) /\
    target s' = take (Z.to_nat i) l ++ drop (Z.to_nat (i + r)) l /\
    emitted t = removePatch <$> descending i r /\
    commits t = 1%nat /\
    prepared t = [] /\
    detached t = List.filter isMST (positions l i (i + r)) /\
    reparented t
    = (fun jv => (jv.2, numberToString (jv.1 - r)))
      <$> nodes (indexed (i + r) (drop (Z.to_nat (i + r)) l)).
Proof.
  intros Hint Hlis Hw l i r.
  destruct (observable_splice_run index 1 [] s Hint Hlis Hw)
    as (reconciled & created & w & Hl1 & Hl2 & Hrun).
  cbn zeta in Hrun. fold l i r in Hrun.
  destruct reconciled, created; try done. cbn [app] in Hrun.
  eexists _, _. split; [exact Hrun|]. cbn [target set_target].
  split; [done|].
  rewrite edit_trace_emitted by apply emitted_reconcile.
  rewrite edit_trace_commits by apply commits_reconcile.
  rewrite edit_trace_prepared, edit_trace_detached, edit_trace_reparented.
  rewrite prepared_reconcile, detached_reconcile, reparented_reconcile.
  destruct (clamp_bounds (Z.of_nat (length l)) index 1) as [_ Hr]; [lia|].
  fold i r in Hr.
  change (Z.of_nat (length (@nil any))) with 0.
  rewrite Z.min_r, Z.add_0_r by lia.
  split; [by rewrite app_nil_r|]. split; [done|]. split; [done|].
  split; [done|]. apply list_fmap_ext; intros ? jv ?; cbn; do 2 f_equal; lia.
Qed.

(** X7. Removing at an index at or beyond the end of the container
    removes nothing: on a wired, writable container [removeChild], and a
    remove patch applied by [applyPatchLocally], run the hook and write
    the array back as it was, so that the container is unchanged; they
    emit no patch, detach and register no node and throw nothing. *)
Theorem remove_beyond_end_changes_nothing subpath patch s :
  interceptor s = true -> listener s = true -> writable (tree s) = true ->
  let len := Z.of_nat (length (target s)) in
  (len <= parseInt10 subpath ->
   exists s',
     removeChild subpath s = (Ok tt, s', [AssertWritable; Commit]) /\
     target s' = target s) /\
  (op patch = "remove"%string ->
   len <= (if String.eqb subpath "-" then len else parseInt subpath) ->
   exists s',
     applyPatchLocally subpath patch s = (Ok tt, s', [AssertWritable; Commit]) /\
     target s' = target s).
Proof.
  intros Hint Hlis Hw len.
  assert (Hbeyond : forall index, len <= index ->
    exists s',
      bind (observable_splice index 1 []) (fun _ => ret tt) s
      = (Ok tt, s', [AssertWritable; Commit]) /\
      target s' = target s).
  { intros index Hindex.
    destruct (observable_splice_run index 1 [] s Hint Hlis Hw)
      as (reconciled & created & w & Hl1 & Hl2 & Hrun).
    cbn zeta in Hrun. fold len in Hrun.
    assert (clampIndex len index = len) as Ei.
    { unfold clampIndex. destruct (Z.gtb_spec index len); [done|].
      destruct (Z.ltb_spec index 0); lia. }
    assert (clampCount len len 1 = 0) as Er by (unfold clampCount; lia).
    rewrite Ei, Er in Hrun.
    destruct reconciled, created; try done. cbn [app] in Hrun.
    unfold bind. rewrite Hrun. cbn [ret].
    unfold reconcileEvents, positions.
    change (Z.of_nat (length (@nil any))) with 0.
    rewrite Z.min_r, !Z.add_0_r, Z.sub_diag by lia.
    rewrite !drop_ge by (unfold len; lia). rewrite take_ge by (unfold len; lia).
    eexists. split; [reflexivity|]. cbn [target set_target].
    by rewrite app_nil_r. }
  split.
  - intros Hindex. unfold removeChild. by apply Hbeyond.
  - intros Hop Hindex. unfold applyPatchLocally. unfold bind at 1.
    cbn [get_target]. fold len. rewrite Hop.
    change (String.eqb "remove" "replace") with false.
    change (String.eqb "remove" "add") with false.
    change (String.eqb "remove" "remove") with true. cbn match.
    destruct (Hbeyond _ Hindex) as (s' & Hrun & Ht).
    rewrite Hrun. by exists s'.
Qed.

(** X8. [removeChild] at the key of an occupied slot removes exactly
    that element, through the whole edit pipeline: on a wired, writable
    container the hook detaches the element if it is a node, registers
    every node behind it one index lower, and prepares nothing; the
    array is written once; exactly one patch is emitted, with the
    operation remove, the index of the slot as path, and no value. *)
Theorem removeChild_removes_one subpath s x :
  interceptor s = true -> listener s = true -> writable (tree s) = true ->
  let l := target s in
  let i := parseInt10 subpath in
  0 <= i -> l !! Z.to_nat i = Some x ->
  exists s' t,
    removeChild subpath s = (Ok tt, s', t) /\
    target s' = take (Z.to_nat i) l ++ drop (S (Z.to_nat i)) l /\
    emitted t = [removePatch i] /\
    commits t = 1%nat /\
    prepared t = [] /\
    detached t = (if isMST x then [x] else []) /\
    reparented t
    = (fun jv => (jv.2, numberToString (jv.1 - 1)))
      <$> nodes (indexed (i + 1) (drop (S (Z.to_nat i)) l)) /\
    patchTriple <$> emitted t = [("remove"%string, numberToString i, None)].
Proof.
  intros Hint Hlis Hw l i Hi Hx.
  pose proof (lookup_lt_Some _ _ _ Hx) as Hlt.
  destruct (observable_splice_remove i s Hint Hlis Hw)
    as (s' & t & Hrun & Ht & Hem & Hco & Hpr & Hde & Hre).
  destruct (clamp_id (Z.of_nat (length l)) i 1) as [Ei Er]; [lia..|].
  cbn zeta in Hrun, Ht, Hem, Hde, Hre. fold l in Hrun, Ht, Hem, Hde, Hre.
  rewrite Ei in Hrun, Ht, Hem, Hde, Hre. rewrite Er in Hrun, Ht, Hem, Hde, Hre.
  replace (Z.to_nat (i + 1)) with (S (Z.to_nat i)) in * by lia.
  unfold removeChild, bind. fold i. rewrite Hrun. cbn [ret].
  assert (emitted t = [removePatch i]) as Hone.
  { rewrite Hem. unfold descending.
    change (seq 0 (Z.to_nat 1)) with [0%nat]. cbn [fmap list_fmap].
    replace (i + 1 - 1 - Z.of_nat 0) with i by lia. reflexivity. }
  eexists _, _. split; [reflexivity|]. rewrite app_nil_r.
  split; [done|]. split; [done|].
  split; [done|]. split; [done|]. split; [|split; [done|by rewrite Hone]].
  rewrite Hde. unfold positions.
  replace (Z.to_nat (i + 1 - i)) with 1%nat by lia.
  rewrite (drop_S _ _ _ Hx). cbn. by destruct (isMST x).
Qed.

Lemma bind_get_target {A} (f : list any -> M A) s :
  bind get_target f s = f (target s) s.
Proof.
  unfold bind. cbn [get_target]. by destruct (f (target s) s) as [[? ?] ?].
Qed.

Lemma willChange_update_run index newValue s :
  writable (tree s) = true ->
  strict_eq newValue (index_get undefined (target s) index) = false ->
  let o := (prepareChild_h (target s) (numberToString index) newValue true
              (tree s)).1 in
  let w := (prepareChild_h (target s) (numberToString index) newValue true
              (tree s)).2 in
  willChange (WillUpdate index newValue) s
  = (Ok (Some (WillUpdate index o)), set_tree w s,
     [AssertWritable; PrepareChild (numberToString index) newValue true o]).
Proof.
  intros Hw Hdiff o w. unfold willChange. unfold bind at 1.
  unfold assertWritable at 1. rewrite Hw. rewrite bind_get_target, Hdiff.
  unfold bind, prepareChild, reconcileExisting_default. subst o w.
  by destruct (prepareChild_h _ _ _ _ _).
Qed.

(** X4. A patch applied to a wired, writable container is echoed by the
    container as a patch of its own, which is stated field by field.  An
    add patch runs the interception hook on the insertion of its value
    at the index the insertion is clamped to; the array is written once
    and holds the value the hook handed back at that index; exactly one
    patch is emitted: operation add, that index as path, and as value
    the snapshot of the value handed back, taken in the tree as the hook
    left it.  A remove patch at an occupied slot takes that element out
    and is echoed as exactly one patch with the operation remove, the
    index as path and no value.  A replace patch that changes an
    occupied slot runs the hook on the update; when the hook hands back
    a value other than the one the slot holds, the array is written once
    and exactly one patch is emitted: operation replace, the index as
    path, the snapshot of the value handed back; when it hands back the
    value the slot already holds, the array is not written and nothing
    is emitted. *)
Theorem applyPatchLocally_echoes_patch subpath patch s :
  interceptor s = true -> listener s = true -> writable (tree s) = true ->
  let l := target s in
  let len := Z.of_nat (length l) in
  let index := if String.eqb subpath "-" then len else parseInt subpath in
  let v := patchValue patch in
  let i := clampIndex len index in
  (op patch = "add"%string ->
   exists o w hook s' t,
     willChange (WillSplice i [v] 0) s
     = (Ok (Some (WillSplice i [o] 0)), set_tree w s, hook) /\
     applyPatchLocally subpath patch s = (Ok tt, s', t) /\
     t = hook ++ Commit :: (EmitPatch <$> emitted t) /\
     patchTriple <$> emitted t
     = [("add"%string, numberToString i, Some (valueToSnapshot w o))] /\
     commits t = 1%nat /\
     target s' = take (Z.to_nat i) l ++ o :: drop (Z.to_nat i) l) /\
  (op patch = "remove"%string -> 0 <= index < len ->
   exists s' t,
     applyPatchLocally subpath patch s = (Ok tt, s', t) /\
     patchTriple <$> emitted t
     = [("remove"%string, numberToString index, None)] /\
     commits t = 1%nat /\
     target s' = take (Z.to_nat index) l ++ drop (S (Z.to_nat index)) l) /\
  (op patch = "replace"%string -> 0 <= index < len ->
   strict_eq v (index_get undefined l index) = false ->
   exists o w hook s' t,
     willChange (WillUpdate index v) s
     = (Ok (Some (WillUpdate index o)), set_tree w s, hook) /\
     applyPatchLocally subpath patch s = (Ok tt, s', t) /\
     prepared t = [(numberToString index, v, true, o)] /\
     if strict_eq o (index_get undefined l index)
     then t = hook /\ emitted t = [] /\ commits t = 0%nat /\ target s' = l
     else t = hook ++ Commit :: (EmitPatch <$> emitted t) /\
          patchTriple <$> emitted t
          = [("replace"%string, numberToString index,
              Some (valueToSnapshot w o))] /\
          commits t = 1%nat /\
          target s' = <[Z.to_nat index := o]> l).
Proof.
  intros Hint Hlis Hw l len index v i.
  destruct (clamp_bounds len index 0) as [Hi _]; [unfold len; lia|].
  fold i in Hi. split; [|split].
  - intros Hop. unfold applyPatchLocally. unfold bind at 1.
    cbn [get_target]. fold l len index. rewrite Hop.
    change (String.eqb "add" "replace") with false.
    change (String.eqb "add" "add") with true. cbn match.
    fold (patchValue patch). fold v.
    destruct (observable_splice_hooked index 0 [v] s Hint Hlis Hw)
      as (reconciled & created & w & Hl1 & Hl2 & Hhook & Hrun).
    cbn zeta in Hrun, Hhook. fold l len i in Hrun, Hhook, Hl1.
    assert (clampCount len i 0 = 0) as Er by (unfold clampCount; lia).
    rewrite Er in Hrun, Hhook, Hl1. cbn in Hl1.
    destruct reconciled; [|done]. cbn [app] in *.
    destruct created as [|o [|? ?]]; try done.
    unfold bind. rewrite Hrun. cbn [ret].
    exists o, w. eexists _, _, _. split; [exact Hhook|].
    split; [reflexivity|].
    rewrite app_nil_r, Z.add_0_r. cbn [target set_target].
    rewrite edit_trace_emitted by apply emitted_reconcile.
    rewrite edit_trace_commits by apply commits_reconcile.
    by repeat split.
  - intros Hop Hrange. unfold applyPatchLocally. unfold bind at 1.
    cbn [get_target]. fold l len index. rewrite Hop.
    change (String.eqb "remove" "replace") with false.
    change (String.eqb "remove" "add") with false.
    change (String.eqb "remove" "remove") with true. cbn match.
    destruct (observable_splice_remove index s Hint Hlis Hw)
      as (s' & t & Hrun & Ht & Hem & Hco & _).
    destruct (clamp_id len index 1) as [Ei Er]; [lia..|].
    cbn zeta in Hrun, Ht, Hem. fold l len in Hrun, Ht, Hem.
    rewrite Ei in Hrun, Ht, Hem. rewrite Er in Hrun, Ht, Hem.
    unfold bind. rewrite Hrun. cbn [ret].
    exists s', t. rewrite app_nil_r. split; [reflexivity|].
    split.
    { rewrite Hem. unfold descending.
      change (seq 0 (Z.to_nat 1)) with [0%nat]. cbn [fmap list_fmap].
      replace (index + 1 - 1 - Z.of_nat 0) with index by lia. reflexivity. }
    split; [done|]. rewrite Ht.
    by replace (Z.to_nat (index + 1)) with (S (Z.to_nat index)) by lia.
  - intros Hop Hrange Hdiff. unfold applyPatchLocally. unfold bind at 1.
    cbn [get_target]. fold l len index. rewrite Hop.
    change (String.eqb "replace" "replace") with true. cbn match.
    fold (patchValue patch). fold v.
    rewrite (observable_set_run index v s Hint Hlis Hw Hrange Hdiff).
    pose proof (willChange_update_run index v s Hw Hdiff) as Hhook.
    cbn zeta in Hhook |- *. fold l in Hhook |- *.
    set (o := (prepareChild_h l (numberToString index) v true (tree s)).1)
      in *.
    set (w := (prepareChild_h l (numberToString index) v true (tree s)).2)
      in *.
    exists o, w. eexists. 
    destruct (strict_eq o (index_get undefined l index)) eqn:E;
      eexists _, _; (split; [exact Hhook|]); (split; [reflexivity|]);
      by repeat split.
Qed.

(** *** Identity-based reconciliation: the uniqueness check *)





(** *** Identity-based reconciliation: what it touches *)

Lemma keptChild_some attr target item c :
  keptChild attr target item = Some c ->
  c ∈ target /\ identifierKey attr c = identifierKey attr item /\
  typeIs c item = true.
Proof.
  unfold keptChild.
  destruct (existingChild attr target item) as [c'|] eqn:Ec; [|done].
  destruct (typeIs c' item) eqn:Ety; [|done]. intros [= <-].
  apply existingChild_some in Ec as [? ?]. by repeat split.
Qed.


Lemma itemEvents_quiet attr target snapshot out :
  prepared (zip_with (itemEvent attr target) snapshot out) = [] /\
  detached (zip_with (itemEvent attr target) snapshot out) = [] /\
  reparented (zip_with (itemEvent attr target) snapshot out) = [] /\
  commits (zip_with (itemEvent attr target) snapshot out) = 0%nat.
Proof.
  revert out. induction snapshot as [|item snapshot IH]; intros [|o out];
    try done.
  cbn [zip_with]. unfold itemEvent at 1 3 5 7.
  destruct (keptChild attr target item); apply IH.
Qed.


Lemma keptChildren_itemEvents attr target snapshot (out : list any) :
  length out = length snapshot ->
  keptChildren (zip_with (itemEvent attr target) snapshot out)
  = omap (keptChild attr target) snapshot.
Proof.
  revert out. induction snapshot as [|item snapshot IH]; intros [|o out] Hlen;
    try done.
  cbn [zip_with omap]. unfold itemEvent at 1. unfold keptChildren in *.
  injection Hlen as Hlen.
  destruct (keptChild attr target item) eqn:Ek; cbn; rewrite Ek; [f_equal|];
    by apply IH.
Qed.

(** X11. When the identifiers of the snapshot entries are pairwise
    distinct, and no identifier key is a key under which the empty
    object already answers, identity-based reconciliation keeps every
    existing child
    at most once: no child has two snapshots applied onto it, so no
    child is handed to the container twice. *)
Theorem reconcileArrayItems_keeps_each_child_once attr snapshot s :
  NoDup (identifierKey attr <$> target s) ->
  Forall (fun c => truthy c = true) (target s) ->
  Forall (fun c => inheritedKey (identifierKey attr c) = false) (target s) ->
  Forall (fun item => inheritedKey (identifierKey attr item) = false)
    snapshot ->
  NoDup (identifierKey attr <$> snapshot) ->
  exists out s' t,
    reconcileArrayItems attr (target s) snapshot s = (Ok out, s', t) /\
    NoDup (keptChildren t).
Proof.
  intros Hnd Htr Hown Hfresh Hsnap.
  destruct (reconcileArrayItems_run attr (target s) snapshot s Hnd Htr
              Hown Hfresh) as (out & w & Hlen & _ & Hrun).
  eexists _, _, _. split; [exact Hrun|].
  rewrite keptChildren_itemEvents by done. clear Hrun Hlen out Hfresh.
  induction snapshot as [|item snapshot IH]; [constructor|].
  rewrite fmap_cons in Hsnap. apply NoDup_cons in Hsnap as [Hitem Hsnap].
  destruct (keptChild attr (target s) item) as [c|] eqn:Ek; cbn; rewrite Ek;
    [|by apply IH].
  apply NoDup_cons. split; [|by apply IH].
  intros Hin. apply list_elem_of_omap in Hin as (item' & Hi' & Ek').
  apply keptChild_some in Ek as (_ & Hkey & _).
  apply keptChild_some in Ek' as (_ & Hkey' & _).
  apply Hitem. rewrite <- Hkey, Hkey'. by apply list_elem_of_fmap_2.
Qed.

(** *** Enumerating and looking up children *)

Lemma getChildMSTs_from_nodes k l :
  getChildMSTs_from k l
  = (fun jv => (numberToString jv.1, jv.2)) <$> nodes (indexed k l).
Proof.
  revert k. induction l as [|v l IH]; intros k; [done|].
  cbn [getChildMSTs_from indexed]. unfold nodes in *. cbn [List.filter snd].
  rewrite IH. by destruct (isMST v).
Qed.

Lemma elem_of_indexed {A} k (l : list A) j x :
  (j, x) ∈ indexed k l <->
  exists n : nat, j = k + Z.of_nat n /\ l !! n = Some x.
Proof.
  revert k. induction l as [|y l IH]; intros k; cbn [indexed].
  - split; [intros H; by apply elem_of_nil in H | by intros (n & _ & ?)].
  - rewrite elem_of_cons, IH. split.
    + intros [[= -> ->]|(n & -> & Hn)].
      * exists 0%nat. split; [lia | done].
      * exists (S n). split; [lia | done].
    + intros ([|n] & -> & Hn).
      * left. cbn in Hn. injection Hn as ->. f_equal. lia.
      * right. exists n. split; [lia | done].
Qed.

Lemma elem_of_nodes k l j v :
  (j, v) ∈ nodes (indexed k l) <->
  exists n : nat, j = k + Z.of_nat n /\ l !! n = Some v /\ isMST v = true.
Proof.
  unfold nodes. rewrite list_elem_of_In, filter_In, <- list_elem_of_In.
  rewrite elem_of_indexed. cbn. split.
  - intros [(n & Hj & Hn) Hv]. by exists n.
  - intros (n & Hj & Hn & Hv). split; [by exists n | done].
Qed.

Lemma NoDup_indexed_fst {A} k (l : list A) : NoDup (fst <$> indexed k l).
Proof.
  revert k. induction l as [|y l IH]; intros k; cbn; [constructor|].
  apply NoDup_cons. split; [|apply IH].
  intros Hin. apply list_elem_of_fmap in Hin as ([j x] & Hj & Hin).
  apply elem_of_indexed in Hin as (n & -> & _). cbn in Hj. lia.
Qed.

Lemma NoDup_nodes_fst k l : NoDup (fst <$> nodes (indexed k l)).
Proof.
  unfold nodes. generalize (NoDup_indexed_fst k l).
  induction (indexed k l) as [|jv L IH]; [done|].
  cbn. intros Hnd. apply NoDup_cons in Hnd as [Hjv Hnd].
  destruct (isMST jv.2); [|by apply IH].
  cbn. apply NoDup_cons. split; [|by apply IH].
  intros Hin. apply Hjv. apply list_elem_of_fmap in Hin as (x & -> & Hx).
  apply list_elem_of_fmap_2. apply list_elem_of_In in Hx.
  apply filter_In in Hx as [Hx _]. by apply list_elem_of_In.
Qed.

Lemma elem_of_getChildMSTs s key v :
  (key, v) ∈ getChildMSTs s <->
  exists j : nat,
    key = numberToString (Z.of_nat j) /\ target s !! j = Some v /\
    isMST v = true.
Proof.
  unfold getChildMSTs. rewrite getChildMSTs_from_nodes.
  rewrite list_elem_of_fmap. split.
  - intros ([j x] & [= -> ->] & Hin).
    apply elem_of_nodes in Hin as (n & -> & Hn & Hv).
    exists n. by rewrite Z.add_0_l.
  - intros (n & -> & Hn & Hv). exists (Z.of_nat n, v). split; [done|].
    apply elem_of_nodes. exists n. by rewrite Z.add_0_l.
Qed.

(** X12. [getChildMSTs] enumerates exactly the elements of the container
    that are nodes, in container order, each once and under the decimal
    string of its own index: the keys of the enumeration are pairwise
    distinct, and an element that is not a node is never listed. *)
Theorem getChildMSTs_enumerates_nodes s :
  (forall key v,
     (key, v) ∈ getChildMSTs s <->
     exists j : nat,
       key = numberToString (Z.of_nat j) /\ target s !! j = Some v /\
       isMST v = true) /\
  NoDup (fst <$> getChildMSTs s) /\
  snd <$> getChildMSTs s = List.filter isMST (target s).
Proof.
  split; [|split].
  - apply elem_of_getChildMSTs.
  - unfold getChildMSTs. rewrite getChildMSTs_from_nodes.
    rewrite <- list_fmap_compose.
    change (fst ∘ (fun jv : Z * any => (numberToString jv.1, jv.2)))
      with (numberToString ∘ (fst : Z * any -> Z)).
    rewrite list_fmap_compose. apply NoDup_fmap_2; [|apply NoDup_nodes_fst].
    unfold numberToString. apply _.
  - unfold getChildMSTs. rewrite getChildMSTs_from_nodes.
    rewrite <- list_fmap_compose. apply nodes_indexed.
Qed.

(** X13. Looking up an enumerated child finds it: when the keys of the
    container parse back to their indices, [getChildMST] returns, for
    every pair that [getChildMSTs] lists, the node of that pair. *)
Theorem getChildMST_finds_enumerated s key v :
  (forall j, 0 <= j < Z.of_nat (length (target s)) ->
     parseInt10 (numberToString j) = j) ->
  (key, v) ∈ getChildMSTs s ->
  getChildMST key s = Some v.
Proof.
  intros Hparse Hin. unfold getChildMSTs in Hin.
  rewrite getChildMSTs_from_nodes in Hin.
  apply list_elem_of_fmap in Hin as ([j x] & [= -> ->] & Hin).
  apply elem_of_nodes in Hin as (n & -> & Hn & Hv).
  pose proof (lookup_lt_Some _ _ _ Hn) as Hlt.
  unfold getChildMST. cbn [fst]. rewrite Hparse by lia. rewrite Z.add_0_l.
  rewrite (proj2 (Z.ltb_lt _ _)) by lia.
  unfold index_get. rewrite (proj2 (Z.leb_le _ _)) by lia.
  rewrite (proj2 (Z.ltb_lt _ _)) by lia. cbn [andb].
  rewrite Nat2Z.id, Hn. cbn. by rewrite Hv.
Qed.

(** X14. [getChildMST] returns a child only from inside the container:
    what it returns is the element at the index its key parses to, a
    node, and listed by [getChildMSTs] under the decimal string of that
    index.  A key that parses to the length of the container or beyond,
    or to a negative number, and the key of an element that is not a
    node, give null. *)
Theorem getChildMST_returns_only_children s key :
  isMST undefined = false ->
  let index := parseInt10 key in
  (forall v, getChildMST key s = Some v ->
     0 <= index < Z.of_nat (length (target s)) /\
     target s !! Z.to_nat index = Some v /\
     isMST v = true /\
     (numberToString index, v) ∈ getChildMSTs s) /\
  (Z.of_nat (length (target s)) <= index -> getChildMST key s = None) /\
  (index < 0 -> getChildMST key s = None) /\
  (forall v, 0 <= index -> target s !! Z.to_nat index = Some v ->
     isMST v = false -> getChildMST key s = None).
Proof.
  intros Hundef index. unfold getChildMST. fold index.
  split; [|split; [|split]].
  - intros v Hget.
    destruct (Z.ltb_spec index (Z.of_nat (length (target s)))); [|done].
    unfold index_get in Hget.
    destruct (Z.leb_spec 0 index); cbn [andb] in Hget.
    2:{ by rewrite Hundef in Hget. }
    rewrite (proj2 (Z.ltb_lt _ _)) in Hget by lia.
    destruct (lookup_lt_is_Some_2 (target s) (Z.to_nat index)) as [x Hx];
      [lia|].
    rewrite Hx in Hget. cbn in Hget.
    destruct (isMST x) eqn:Ex; [|done]. injection Hget as ->.
    split; [lia|]. split; [done|]. split; [done|].
    unfold getChildMSTs. rewrite getChildMSTs_from_nodes.
    apply list_elem_of_fmap. exists (index, v). split; [done|].
    apply elem_of_nodes. exists (Z.to_nat index). split; [lia|done].
  - intros Hge. by rewrite (proj2 (Z.ltb_ge _ _)) by lia.
  - intros Hneg. destruct (_ <? _); [|done].
    unfold index_get. rewrite (proj2 (Z.leb_gt _ _)) by lia. cbn [andb].
    by rewrite Hundef.
  - intros v Hpos Hv Hnot.
    pose proof (lookup_lt_Some _ _ _ Hv) as Hlt.
    rewrite (proj2 (Z.ltb_lt _ _)) by lia.
    unfold index_get. rewrite (proj2 (Z.leb_le _ _)) by lia.
    rewrite (proj2 (Z.ltb_lt _ _)) by lia. cbn [andb].
    rewrite Hv. cbn. by rewrite Hnot.
Qed.

(** *** The paths of the nodes after an edit *)

(** X15. After a splice of a wired, writable container, the paths that
    the hook registered agree with the enumeration of the children: the
    nodes the hook registered again are exactly the nodes that
    [getChildMSTs] lists behind the inserted region, each registered
    with the path it is listed under. *)
Theorem splice_registers_enumerated_paths index removedCount added s :
  interceptor s = true -> listener s = true -> writable (tree s) = true ->
  0 <= index -> 0 <= removedCount ->
  index + removedCount <= Z.of_nat (length (target s)) ->
  exists removed s' t,
    observable_splice index removedCount added s = (Ok removed, s', t) /\
    forall c p,
      (c, p) ∈ reparented t <->
      (p, c) ∈ getChildMSTs s' /\
      exists j, index + Z.of_nat (length added) <= j /\ p = numberToString j.
Proof.
  intros Hint Hlis Hw Hi Hr Hlen.
  destruct (observable_splice_run index removedCount added s Hint Hlis Hw)
    as (reconciled & created & w & Hl1 & Hl2 & Hrun).
  destruct (clamp_id (Z.of_nat (length (target s))) index removedCount)
    as [Ei Er]; [lia..|].
  cbn zeta in Hrun. rewrite Ei, Er in Hrun.
  eexists _, _, _. split; [exact Hrun|].
  rewrite edit_trace_reparented, reparented_reconcile.
  rewrite (nodes_shift (Z.of_nat (length added) - removedCount)
             (index + removedCount) _ (fun j v => (v, numberToString j))).
  replace (index + removedCount + (Z.of_nat (length added) - removedCount))
    with (index + Z.of_nat (length added)) by lia.
  set (suffix := drop (Z.to_nat (index + removedCount)) (target s)).
  assert (Hnew : forall (n : nat) c,
    suffix !! n = Some c
    <-> (take (Z.to_nat index) (target s)
         ++ (reconciled ++ created) ++ suffix)
        !! Z.to_nat (index + Z.of_nat (length added) + Z.of_nat n) = Some c).
  { intros n c.
    rewrite lookup_app_r by (rewrite length_take; lia).
    rewrite lookup_app_r by (rewrite length_take; lia).
    rewrite length_take, Hl2.
    by replace (Z.to_nat (index + Z.of_nat (length added) + Z.of_nat n)
                - Z.to_nat index `min` length (target s) - length added)%nat
      with n by lia. }
  intros c p. rewrite list_elem_of_fmap, elem_of_getChildMSTs.
  cbn [target set_target]. fold suffix. split.
  - intros ([j x] & [= -> ->] & Hin).
    apply elem_of_nodes in Hin as (n & -> & Hn & Hv). cbn [fst snd].
    split.
    + exists (Z.to_nat (index + Z.of_nat (length added) + Z.of_nat n)).
      rewrite Z2Nat.id by lia. split; [done|]. split; [|done].
      by apply Hnew.
    + eexists. split; [|done]. lia.
  - intros [(n & -> & Hc & Hnode) (j & Hj & Hp)].
    apply (inj numberToString) in Hp. subst j.
    replace n with (Z.to_nat (index + Z.of_nat (length added)
                              + Z.of_nat (n - Z.to_nat (index
                                  + Z.of_nat (length added)))))
      in Hc by lia.
    apply Hnew in Hc.
    exists (Z.of_nat n, c). split; [done|].
    apply elem_of_nodes. eexists. split; [|done]. lia.
Qed.


(** ** Replaying emitted patches *)

Lemma numberToString_not_dash k :
  0 <= k -> String.eqb (numberToString k) "-" = false.
Proof.
  intros Hk. apply String.eqb_neq. unfold numberToString.
  destruct k as [|p|p]; [done| |lia].
  change (pretty (Z.pos p)) with (pretty_N_go (N.pos p) "").
  change "-"%string with ("-" +:+ "")%string.
  by apply pretty_N_go_ne_dash.
Qed.

Lemma set_target_set_target l1 l2 s :
  set_target l1 (set_target l2 s) = set_target l1 s.
Proof. done. Qed.

Lemma observable_splice_unwired index deleteCount items s :
  interceptor s = false -> listener s = false ->
  0 <= index -> 0 <= deleteCount ->
  index + deleteCount <= Z.of_nat (length (target s)) ->
  observable_splice index deleteCount items s
  = (Ok (positions (target s) index (index + deleteCount)),
     set_target (take (Z.to_nat index) (target s) ++ items
                 ++ drop (Z.to_nat (index + deleteCount)) (target s)) s,
     [Commit]).
Proof.
  intros Hint Hlis Hi Hr Hlen.
  unfold observable_splice. rewrite bind_get_target.
  destruct (clamp_id (Z.of_nat (length (target s))) index deleteCount)
    as [Ei Er]; [lia..|].
  unfold clampIndex in Ei. unfold clampCount in Er. rewrite Ei, Er.
  unfold interceptChange, hasInterceptors, bind at 1 2. rewrite Hint.
  cbn [ret]. rewrite nativeSplice_wf by lia.
  unfold bind, commit, notifyListeners, hasListeners.
  destruct (negb _ || negb _); [|done].
  unfold bind. cbn [listener set_target]. by rewrite Hlis.
Qed.

Lemma applyPatchLocally_remove_unwired k s :
  interceptor s = false -> listener s = false ->
  parseInt (numberToString k) = k ->
  0 <= k < Z.of_nat (length (target s)) ->
  applyPatchLocally (numberToString k) (removePatch k) s
  = (Ok tt,
     set_target (take (Z.to_nat k) (target s)
                 ++ drop (Z.to_nat (k + 1)) (target s)) s,
     [Commit]).
Proof.
  intros Hint Hlis Hp Hk. unfold applyPatchLocally.
  rewrite bind_get_target, numberToString_not_dash, Hp by lia.
  cbn [op removePatch String.eqb Ascii.eqb Bool.eqb andb].
  unfold bind. by rewrite observable_splice_unwired by first [done | lia].
Qed.

Lemma applyPatchLocally_add_unwired k v s :
  interceptor s = false -> listener s = false ->
  parseInt (numberToString k) = k ->
  0 <= k <= Z.of_nat (length (target s)) ->
  applyPatchLocally (numberToString k) (addPatch k v) s
  = (Ok tt,
     set_target (take (Z.to_nat k) (target s) ++ v
                 :: drop (Z.to_nat k) (target s)) s,
     [Commit]).
Proof.
  intros Hint Hlis Hp Hk. unfold applyPatchLocally.
  rewrite bind_get_target, numberToString_not_dash, Hp by lia.
  cbn [op addPatch String.eqb Ascii.eqb Bool.eqb andb value default].
  unfold bind. rewrite observable_splice_unwired by first [done | lia].
  by rewrite Z.add_0_r.
Qed.

Lemma applyPatches_removes index (n : nat) s :
  interceptor s = false -> listener s = false ->
  (forall k, index <= k < index + Z.of_nat n ->
     parseInt (numberToString k) = k) ->
  0 <= index -> index + Z.of_nat n <= Z.of_nat (length (target s)) ->
  applyPatches (removePatch <$> descending index (Z.of_nat n)) s
  = (Ok tt,
     set_target (take (Z.to_nat index) (target s)
                 ++ drop (Z.to_nat (index + Z.of_nat n)) (target s)) s,
     replicate n Commit).
Proof.
  intros Hint Hlis Hp Hi. revert s Hint Hlis Hp.
  induction n as [|n IH]; intros s Hint Hlis Hp Hlen.
  - cbn [applyPatches descending Z.to_nat Z.of_nat seq fmap list_fmap
         replicate ret].
    rewrite Z.add_0_r, take_drop. by destruct s.
  - unfold descending. rewrite Nat2Z.id. cbn [seq fmap list_fmap].
    rewrite <- fmap_S_seq, <- !list_fmap_compose.
    replace (index + Z.of_nat (S n) - 1 - Z.of_nat 0)
      with (index + Z.of_nat n) by lia.
    assert ((removePatch ∘ (fun k => index + Z.of_nat (S n) - 1 - Z.of_nat k)
             ∘ S) <$> seq 0 n
            = removePatch <$> descending index (Z.of_nat n)) as ->.
    { unfold descending. rewrite Nat2Z.id, <- list_fmap_compose.
      apply list_fmap_ext; intros ? k ?; cbn; f_equal; lia. }
    cbn [applyPatches path removePatch]. unfold bind at 1.
    change (applyPatchLocally (numberToString (index + Z.of_nat n))
              {| op := "remove"; path := numberToString (index + Z.of_nat n);
                 value := None |})
      with (applyPatchLocally (numberToString (index + Z.of_nat n))
              (removePatch (index + Z.of_nat n))).
    rewrite applyPatchLocally_remove_unwired
      by first [done | apply Hp; lia | lia].
    rewrite IH; [|done|done| |].
    + cbn [target set_target]. rewrite set_target_set_target.
      cbn [app replicate]. do 3 f_equal.
      rewrite take_app_le by (rewrite length_take; lia).
      rewrite take_take. rewrite Nat.min_l by lia. f_equal.
      rewrite drop_app_ge by (rewrite length_take; lia).
      rewrite length_take, drop_drop. f_equal. lia.
    + intros k Hk. apply Hp. lia.
    + cbn [target set_target].
      rewrite length_app, length_take, length_drop. lia.
Qed.

Lemma applyPatches_adds w index vs s :
  interceptor s = false -> listener s = false ->
  (forall k, index <= k < index + Z.of_nat (length vs) ->
     parseInt (numberToString k) = k) ->
  0 <= index <= Z.of_nat (length (target s)) ->
  applyPatches (addPatches w index vs) s
  = (Ok tt,
     set_target (take (Z.to_nat index) (target s)
                 ++ (patchValue <$> addPatches w index vs)
                 ++ drop (Z.to_nat index) (target s)) s,
     replicate (length vs) Commit).
Proof.
  intros Hint Hlis Hp. revert w index s Hint Hlis Hp.
  induction vs as [|v vs IH]; intros w index s Hint Hlis Hp Hi.
  - cbn [applyPatches addPatches fmap list_fmap app length replicate ret].
    rewrite take_drop. by destruct s.
  - cbn [applyPatches addPatches path addPatch]. unfold bind at 1.
    change (applyPatchLocally (numberToString index)
              {| op := "add"; path := numberToString index;
                 value := Some (valueToSnapshot w v) |})
      with (applyPatchLocally (numberToString index)
              (addPatch index (valueToSnapshot w v))).
    rewrite applyPatchLocally_add_unwired
      by first [done | apply Hp; cbn [length]; lia | lia].
    rewrite IH; [|done|done| |].
    + cbn [target set_target]. rewrite set_target_set_target.
      cbn [app replicate length fmap list_fmap].
      change (patchValue (addPatch index (valueToSnapshot w v)))
        with (valueToSnapshot w v).
      do 3 f_equal.
      replace (Z.to_nat (index + 1)) with (S (Z.to_nat index)) by lia.
      replace (take (Z.to_nat index) (target s)
               ++ valueToSnapshot w v :: drop (Z.to_nat index) (target s))
        with ((take (Z.to_nat index) (target s) ++ [valueToSnapshot w v])
              ++ drop (Z.to_nat index) (target s))
        by (by rewrite <- app_assoc).
      rewrite take_app_length' by (rewrite length_app, length_take; cbn; lia).
      rewrite drop_app_length' by (rewrite length_app, length_take; cbn; lia).
      by rewrite <- app_assoc.
    + intros k Hk. apply Hp. cbn [length]. lia.
    + cbn [target set_target].
      rewrite length_app, length_take. cbn [length]. rewrite length_drop. lia.
Qed.

Lemma applyPatches_app ps qs s s1 t1 :
  applyPatches ps s = (Ok tt, s1, t1) ->
  applyPatches (ps ++ qs) s
  = (let '(r, s2, t2) := applyPatches qs s1 in (r, s2, t1 ++ t2)).
Proof.
  revert s s1 t1. induction ps as [|p ps IH]; intros s s1 t1.
  - cbn [applyPatches app ret]. intros [= <- <-].
    by destruct (applyPatches qs s) as [[??]?].
  - cbn [applyPatches app]. unfold bind.
    destruct (applyPatchLocally (path p) p s) as [[[[]|e] s0] t0]; [|done].
    destruct (applyPatches ps s0) as [[r' s'] t'] eqn:E.
    intros [= -> -> <-]. rewrite (IH _ _ _ E).
    destruct (applyPatches qs s1) as [[??]?]. by rewrite app_assoc.
Qed.

Lemma addPatches_values w index vs :
  Forall2 (fun v x => exists w', x = valueToSnapshot w' v) vs
    (patchValue <$> addPatches w index vs).
Proof.
  revert w index. induction vs as [|v vs IH]; intros w index;
    cbn [addPatches fmap list_fmap]; constructor; [by exists w | apply IH].
Qed.

(** X16. The patches a splice emits replay the splice.  Applied in the
    order of their emission to a plain array that is long enough for the
    splice, through [applyPatchLocally] at the path each patch carries,
    they take out the removed range and put in its place one value per
    added element, the snapshot that element had when its patch was
    emitted; every patch commits one edit.  The paths are read back by
    [parseInt], which is asked to read the decimal paths of the splice
    as the numbers they print. *)
Theorem splice_patches_replay index removedCount added removed s s0 :
  interceptor s0 = false -> listener s0 = false ->
  (forall k,
     index <= k < index + Z.max removedCount (Z.of_nat (length added)) ->
     parseInt (numberToString k) = k) ->
  0 <= index -> 0 <= removedCount ->
  index + removedCount <= Z.of_nat (length (target s0)) ->
  exists s' t values t0,
    didChange
      (Splice index added (Z.of_nat (length added)) removed removedCount) s
    = (Ok tt, s', t) /\
    Forall2 (fun v x => exists w, x = valueToSnapshot w v) added values /\
    applyPatches (emitted t) s0
    = (Ok tt,
       set_target (take (Z.to_nat index) (target s0) ++ values
                   ++ drop (Z.to_nat (index + removedCount)) (target s0)) s0,
       t0) /\
    commits t0 = length (emitted t).
Proof.
  intros Hint Hlis Hp Hi Hr Hlen.
  rewrite didChange_splice_run. cbn zeta.
  set (w := emitAll (removePatch <$> descending index removedCount) (tree s)).
  eexists _, _, (patchValue <$> addPatches w index added), _.
  split; [reflexivity|]. split; [apply addPatches_values|].
  rewrite emitted_emit.
  pose proof (applyPatches_removes index (Z.to_nat removedCount) s0 Hint Hlis)
    as Hrem.
  rewrite Z2Nat.id in Hrem by lia.
  rewrite (applyPatches_app _ _ _ _ _ (Hrem ltac:(intros; apply Hp; lia)
                                         Hi Hlen)).
  rewrite applyPatches_adds; [|done|done|intros; apply Hp; lia|].
  - cbn [target set_target]. rewrite set_target_set_target. split.
    + do 3 f_equal.
      rewrite take_app_le by (rewrite length_take; lia).
      rewrite take_take, Nat.min_id.
      rewrite drop_app_ge by (rewrite length_take; lia).
      rewrite length_take.
      by replace (Z.to_nat index - Z.to_nat index `min` length (target s0))%nat
        with 0%nat by lia.
    + rewrite length_app, length_fmap, addPatches_length.
      unfold descending. rewrite length_fmap, length_seq. unfold commits.
      rewrite <- replicate_add.
      generalize (Z.to_nat removedCount + length added)%nat. intros n.
      induction n as [|n IH]; cbn; [done | by rewrite IH].
  - cbn [target set_target].
    rewrite length_app, length_take, length_drop. lia.
Qed.


(** ** Snapshots of elements without an identifier *)

Lemma edit_trace_identityWork evs ps :
  identityWork (AssertWritable :: evs ++ Commit :: (EmitPatch <$> ps))
  = identityWork evs.
Proof.
  change (identityWork (AssertWritable :: ?t)) with (identityWork t).
  rewrite identityWork_app.
  change (identityWork (Commit :: ?t)) with (identityWork t).
  by rewrite identityWork_emit, app_nil_r.
Qed.

Lemma prepared_raw_reconcile l i added r reconciled created :
  length reconciled
  = Z.to_nat (Z.min r (Z.of_nat (length added))) ->
  length (reconciled ++ created) = length added ->
  preparedRaw (reconcileEvents l i added r reconciled created) = added
  /\ preparedOut (reconcileEvents l i added r reconciled created)
     = reconciled ++ created.
Proof.
  intros Hl1 Hl2. rewrite length_app in Hl2.
  unfold reconcileEvents, preparedRaw, preparedOut.
  rewrite !prepared_app, !prepared_parent, !fmap_app. cbn [app].
  set (rc := Z.min r (Z.of_nat (length added))) in *.
  fold (preparedRaw (prepareEvents numberToString true
          (indexed i (take (Z.to_nat rc) added)) reconciled)).
  fold (preparedRaw (prepareEvents numberToString false
          (indexed (i + rc) (drop (Z.to_nat rc) added)) created)).
  fold (preparedOut (prepareEvents numberToString true
          (indexed i (take (Z.to_nat rc) added)) reconciled)).
  fold (preparedOut (prepareEvents numberToString false
          (indexed (i + rc) (drop (Z.to_nat rc) added)) created)).
  rewrite !prepared_raw_prepare, !prepared_out_prepare
    by (rewrite ?length_take, ?length_drop; lia).
  by rewrite take_drop.
Qed.

(** X17. A snapshot applied to a container whose element type has no
    identifier attribute replaces the content position by position.  On a
    wired, writable container the call returns, whatever the content: no
    identifier is looked up, no child is handed a snapshot and none is
    created by the element type; every snapshot value goes through
    [prepareChild], in order, and the values it returned are the new
    content; the nodes beyond the new length are detached and no node is
    registered again; the array is written once; the patches are one
    [remove] per old element, last position first, then one [add] per new
    element, first position first. *)
Theorem applySnapshot_without_identifier snapshot s :
  identifierAttr_truthy identifierAttribute = None ->
  interceptor s = true -> listener s = true -> writable (tree s) = true ->
  exists s' t,
    applySnapshot snapshot s = (Ok tt, s', t) /\
    identityWork t = [] /\
    preparedRaw t = snapshot /\
    preparedOut t = target s' /\
    length (target s') = length snapshot /\
    detached t = List.filter isMST (drop (length snapshot) (target s)) /\
    reparented t = [] /\
    commits t = 1%nat /\
    op <$> emitted t
    = replicate (length (target s)) "remove"%string
      ++ replicate (length snapshot) "add"%string /\
    path <$> emitted t
    = numberToString
      <$> (descending 0 (Z.of_nat (length (target s)))
           ++ ascending 0 (length snapshot)).
Proof.
  intros Hattr Hint Hlis Hw.
  unfold applySnapshot. rewrite bind_get_target, Hattr.
  unfold observable_replace. unfold bind at 1. rewrite bind_get_target.
  destruct (observable_splice_run 0 (Z.of_nat (length (target s))) snapshot s
              Hint Hlis Hw) as (reconciled & created & w & Hl1 & Hl2 & Hrun).
  destruct (clamp_id (Z.of_nat (length (target s))) 0
              (Z.of_nat (length (target s)))) as [Ei Er]; [lia..|].
  cbn zeta in Hrun. rewrite Ei, Er in Hrun, Hl1. rewrite Hrun.
  cbn [ret]. rewrite app_nil_r.
  eexists _, _. split; [reflexivity|].
  destruct (prepared_raw_reconcile (target s) 0 snapshot
              (Z.of_nat (length (target s))) reconciled created Hl1 Hl2)
    as [Hraw Hout].
  assert (Hnew : take (Z.to_nat 0) (target s) ++ (reconciled ++ created)
                 ++ drop (Z.to_nat (0 + Z.of_nat (length (target s))))
                      (target s)
                 = reconciled ++ created).
  { change (take (Z.to_nat 0) (target s)) with (@nil any).
    rewrite drop_ge by lia. by rewrite app_nil_r. }
  cbn [target set_target]. rewrite Hnew.
  rewrite edit_trace_identityWork, identityWork_reconcile.
  unfold preparedRaw, preparedOut in *. rewrite edit_trace_prepared.
  rewrite edit_trace_detached, detached_reconcile.
  rewrite edit_trace_reparented, reparented_reconcile.
  rewrite edit_trace_commits by apply commits_reconcile.
  rewrite edit_trace_emitted by apply emitted_reconcile.
  repeat (split; [done|]).
  split; [|split; [|split; [done|split]]].
  - f_equal. unfold positions.
    rewrite take_ge by (rewrite length_drop; lia).
    destruct (Z.min_spec (Z.of_nat (length (target s)))
                (Z.of_nat (length snapshot))) as [[Hlt ->]|[Hge ->]].
    + rewrite !drop_ge by lia. done.
    + f_equal. lia.
  - rewrite drop_ge by lia. done.
  - rewrite fmap_app, addPatches_op, Hl2. f_equal.
    rewrite <- list_fmap_compose.
    unfold descending. rewrite <- list_fmap_compose, Nat2Z.id.
    transitivity
      (replicate (length (seq 0 (length (target s)))) "remove"%string);
      [|by rewrite length_seq].
    generalize (seq 0 (length (target s))). intros l.
    induction l as [|x l IH]; cbn; [done | by rewrite IH].
  - rewrite !fmap_app, addPatches_path, Hl2. f_equal.
    rewrite <- !list_fmap_compose. done.
Qed.

End MoreProperties.

(** * Further closed runs *)

Section MoreRuns.
Import Demo.
Import DemoMore.

Lemma reconcileUnkeyed_setParent_coverage_witness :
  let s := wired [DNode 0 1; DNode 1 2; DNode 2 3; DStr "z"; DNode 3 4]
             empty_world in
  exists out s' t,
    reconcileUnkeyedArrayItems 1 [DRaw 9 "x"] 2 s = (Ok out, s', t) /\
    detached t ++ (fst <$> reparented t) = [DNode 2 3; DNode 3 4].
Proof.
  intros s.
  apply (reconcileUnkeyed_setParent_coverage (TL := demo_tree) 1
           [DRaw 9 "x"] 2 s); lia.
Defined.

Lemma applyPatchLocally_echoes_patch_witness :
  let s := wired [DStr "a"; DStr "b"] empty_world in
  (exists o w hook s' t,
     willChange (WillSplice 2 [DStr "x"] 0) s
     = (Ok (Some (WillSplice 2 [o] 0)), set_tree w s, hook) /\
     applyPatchLocally "-" append_x s = (Ok tt, s', t) /\
     t = hook ++ Commit :: (EmitPatch <$> emitted t) /\
     patchTriple <$> emitted t
     = [("add"%string, "2"%string, Some (valueToSnapshot w o))] /\
     commits t = 1%nat /\
     target s' = [DStr "a"; DStr "b"; o]) /\
  (exists s' t,
     applyPatchLocally "0" remove_0 s = (Ok tt, s', t) /\
     patchTriple <$> emitted t = [("remove"%string, "0"%string, None)] /\
     commits t = 1%nat /\
     target s' = [DStr "b"]) /\
  (exists o w hook s' t,
     willChange (WillUpdate 1 (DStr "x")) s
     = (Ok (Some (WillUpdate 1 o)), set_tree w s, hook) /\
     applyPatchLocally "1" replace_1_x s = (Ok tt, s', t) /\
     prepared t = [("1"%string, DStr "x", true, o)] /\
     if strict_eq o (DStr "b")
     then t = hook /\ emitted t = [] /\ commits t = 0%nat /\
          target s' = [DStr "a"; DStr "b"]
     else t = hook ++ Commit :: (EmitPatch <$> emitted t) /\
          patchTriple <$> emitted t
          = [("replace"%string, "1"%string, Some (valueToSnapshot w o))] /\
          commits t = 1%nat /\
          target s' = [DStr "a"; o]).
Proof.
  intros s. split; [|split].
  - refine (proj1 (applyPatchLocally_echoes_patch (TL := demo_tree) "-"
                     append_x s eq_refl eq_refl eq_refl) eq_refl).
  - refine (proj1 (proj2 (applyPatchLocally_echoes_patch (TL := demo_tree)
                            "0" remove_0 s eq_refl eq_refl eq_refl))
              eq_refl _).
    by vm_compute.
  - refine (proj2 (proj2 (applyPatchLocally_echoes_patch (TL := demo_tree)
                            "1" replace_1_x s eq_refl eq_refl eq_refl))
              eq_refl _ eq_refl).
    by vm_compute.
Defined.

Lemma remove_beyond_end_changes_nothing_witness :
  let s := wired [DStr "a"; DStr "b"] empty_world in
  (exists s',
     removeChild "5" s = (Ok tt, s', [AssertWritable; Commit]) /\
     target s' = [DStr "a"; DStr "b"]) /\
  (exists s',
     applyPatchLocally "-" remove_end s
     = (Ok tt, s', [AssertWritable; Commit]) /\
     target s' = [DStr "a"; DStr "b"]).
Proof.
  intros s.
  destruct (remove_beyond_end_changes_nothing (TL := demo_tree) "5"
              remove_end s) as [Hchild _]; try reflexivity.
  destruct (remove_beyond_end_changes_nothing (TL := demo_tree) "-"
              remove_end s) as [_ Hpatch]; try reflexivity.
  split.
  - apply Hchild. vm_compute. discriminate.
  - apply Hpatch; [reflexivity|]. vm_compute. discriminate.
Defined.

Lemma removeChild_removes_one_witness :
  let s := wired [DNode 0 1; DNode 1 2; DNode 2 3] empty_world in
  exists s' t,
    removeChild "1" s = (Ok tt, s', t) /\
    target s' = [DNode 0 1; DNode 2 3] /\
    emitted t = [removePatch 1] /\
    commits t = 1%nat /\
    prepared t = [] /\
    detached t = [DNode 1 2] /\
    reparented t = [(DNode 2 3, "1"%string)] /\
    patchTriple <$> emitted t = [("remove"%string, "1"%string, None)].
Proof.
  intros s.
  refine (removeChild_removes_one (TL := demo_tree) "1" s (DNode 1 2)
            _ _ _ _ _); try reflexivity.
  by vm_compute.
Defined.



Lemma reconcileArrayItems_keeps_each_child_once_witness :
  let s := wired [DNode 0 1; DNode 1 2] two_nodes in
  exists out s' t,
    reconcileArrayItems "id" (target s) [DRaw 2 "B"; DRaw 1 "A"] s
    = (Ok out, s', t) /\
    NoDup (keptChildren t).
Proof.
  intros s.
  apply (reconcileArrayItems_keeps_each_child_once (ET := demo_element) "id"
           [DRaw 2 "B"; DRaw 1 "A"] s).
  - apply NoDup_cons. split; [|apply NoDup_singleton].
    intros Hin. apply list_elem_of_singleton in Hin. vm_compute in Hin.
    discriminate Hin.
  - repeat constructor.
  - repeat constructor.
  - repeat constructor.
  - apply NoDup_cons. split; [|apply NoDup_singleton].
    intros Hin. apply list_elem_of_singleton in Hin. vm_compute in Hin.
    discriminate Hin.
Defined.

Lemma getChildMST_finds_enumerated_witness :
  let s := wired [DStr "a"; DNode 0 1; DNode 1 2] two_nodes in
  getChildMST "2" s = Some (DNode 1 2).
Proof.
  intros s.
  apply (getChildMST_finds_enumerated (TL := demo_tree) s "2" (DNode 1 2)).
  - intros j Hj.
    assert (j = 0 \/ j = 1 \/ j = 2) as [->|[->| ->]] by (cbn in Hj; lia);
      reflexivity.
  - apply list_elem_of_In. vm_compute. tauto.
Defined.

Lemma getChildMST_returns_only_children_witness :
  let s := wired [DStr "a"; DNode 0 1; DNode 1 2] two_nodes in
  (0 <= 1 < 3 /\
   target s !! 1%nat = Some (DNode 0 1) /\
   isMST (DNode 0 1) = true /\
   ("1"%string, DNode 0 1) ∈ getChildMSTs s) /\
  getChildMST "3" s = None /\
  getChildMST "0" s = None.
Proof.
  intros s. split; [|split].
  - refine (proj1 (getChildMST_returns_only_children (TL := demo_tree) s "1"
                     eq_refl) (DNode 0 1) eq_refl).
  - refine (proj1 (proj2
             (getChildMST_returns_only_children (TL := demo_tree) s "3"
                eq_refl)) _).
    by vm_compute.
  - refine (proj2 (proj2 (proj2
             (getChildMST_returns_only_children (TL := demo_tree) s "0"
                eq_refl))) (DStr "a") _ eq_refl eq_refl).
    by vm_compute.
Defined.

Lemma splice_registers_enumerated_paths_witness :
  let s := wired [DNode 0 1; DNode 1 2; DNode 2 3] empty_world in
  exists removed s' t,
    observable_splice 1 1 [] s = (Ok removed, s', t) /\
    forall c p,
      (c, p) ∈ reparented t <->
      (p, c) ∈ getChildMSTs s' /\
      exists j, 1 + 0 <= j /\ p = numberToString j.
Proof.
  intros s.
  apply (splice_registers_enumerated_paths (TL := demo_tree) 1 1 [] s);
    try reflexivity; by vm_compute.
Defined.

Lemma splice_patches_replay_witness :
  let s := wired [DStr "a"; DStr "x"; DStr "y"; DStr "z"; DStr "d"]
             empty_world in
  let s0 := unwired [DStr "a"; DStr "b"; DStr "c"; DStr "d"] empty_world in
  exists s' t values t0,
    didChange
      (Splice 1 [DStr "x"; DStr "y"; DStr "z"] 3 [DStr "b"; DStr "c"] 2) s
    = (Ok tt, s', t) /\
    Forall2 (fun v x => exists w, x = valueToSnapshot w v)
      [DStr "x"; DStr "y"; DStr "z"] values /\
    applyPatches (emitted t) s0
    = (Ok tt, set_target ([DStr "a"] ++ values ++ [DStr "d"]) s0, t0) /\
    commits t0 = length (emitted t).
Proof.
  intros s s0.
  apply (splice_patches_replay (TL := demo_tree) 1 2
           [DStr "x"; DStr "y"; DStr "z"] [DStr "b"; DStr "c"] s s0);
    try reflexivity; try by vm_compute.
  intros k Hk.
  assert (k = 1 \/ k = 2 \/ k = 3) as [->|[->| ->]] by (cbn in Hk; lia);
    reflexivity.
Defined.

Lemma applySnapshot_without_identifier_witness :
  let s := wired [DNode 0 1; DNode 1 2; DNode 2 3] empty_world in
  exists s' t,
    applySnapshot (ET := demo_plain) [DRaw 7 "x"] s = (Ok tt, s', t) /\
    identityWork t = [] /\
    preparedRaw t = [DRaw 7 "x"] /\
    preparedOut t = target s' /\
    length (target s') = 1%nat /\
    detached t = [DNode 1 2; DNode 2 3] /\
    reparented t = [] /\
    commits t = 1%nat /\
    op <$> emitted t = ["remove"; "remove"; "remove"; "add"]%string /\
    path <$> emitted t = ["2"; "1"; "0"; "0"]%string.
Proof.
  intros s.
  apply (applySnapshot_without_identifier (ET := demo_plain) [DRaw 7 "x"] s);
    reflexivity.
Defined.

End MoreRuns.
